(** * ChessAnalysis: PGN batch parser, game store, move replay,
      evaluation pipeline and rating window

    A shallow embedding of the core of [acco/fetch_games.py] and
    [acco/game_viewer.py], with the properties of the specification stated
    and settled against it.

    Conventions.
    - A Python [str] is a [string]; a character is a code point below 256.
    - A Python [int] is a [Z]; a Python [float] obtained by a division of
      integers is the exact rational ([Q]).
    - A [dict] is a [gmap]; the SQLite table [games], whose primary key is
      [url], is a [gmap string Row].
    - A Python exception is the [Raise] outcome of [result]. *)

From Stdlib Require Import ZArith QArith Qabs Ascii String List Lia.
From stdpp Require Import gmap strings list fin_maps.

Local Open Scope Z_scope.

(** ** Outcomes of code that may raise *)

Inductive exn : Type :=
  | ValueError
  | AttributeError
  | EngineError.

Inductive result (A : Type) : Type :=
  | Ok (a : A)
  | Raise (e : exn).
Arguments Ok {A} a.
Arguments Raise {A} e.

(** [try: body except Exception: handler] *)
Definition try_except {A} (body : result A) (handler : exn -> result A) : result A :=
  match body with
  | Ok a => Ok a
  | Raise e => handler e
  end.

Definition rbind {A B} (m : result A) (k : A -> result B) : result B :=
  match m with
  | Ok a => k a
  | Raise e => Raise e
  end.

(** ** Python string primitives *)

Module Py.

Definition code (c : ascii) : Z := Z.of_N (N_of_ascii c).

Definition in_range (lo hi : Z) (c : ascii) : bool :=
  (lo <=? code c) && (code c <=? hi).

(** [str.isspace] on one character, also the class [\s] of [re] on [str]
    patterns: TAB..CR, FS..US, SPACE, NEL and NBSP. *)
Definition isspace (c : ascii) : bool :=
  in_range 9 13 c || in_range 28 32 c || (code c =? 133) || (code c =? 160).

(** The class [\d] of [re]: the decimal digits. *)
Definition isdecimal (c : ascii) : bool := in_range 48 57 c.

(** [str.isalnum] on one character of the first 256 code points. *)
Definition isalnum (c : ascii) : bool :=
  in_range 48 57 c || in_range 65 90 c || in_range 97 122 c
  || (code c =? 170) || in_range 178 179 c || (code c =? 181)
  || in_range 185 186 c || in_range 188 190 c
  || in_range 192 214 c || in_range 216 246 c || in_range 248 255 c.

(** The class [\w] of [re] on [str] patterns. *)
Definition isword (c : ascii) : bool := isalnum c || (code c =? 95).

(** [str.lower] on one character of the first 256 code points. *)
Definition lower_char (c : ascii) : ascii :=
  if in_range 65 90 c || in_range 192 214 c || in_range 216 222 c
  then ascii_of_N (N_of_ascii c + 32)
  else c.

Fixpoint lower (s : string) : string :=
  match s with
  | EmptyString => EmptyString
  | String c r => String (lower_char c) (lower r)
  end.

Fixpoint lstrip (s : string) : string :=
  match s with
  | EmptyString => EmptyString
  | String c r => if isspace c then lstrip r else s
  end.

Fixpoint rstrip (s : string) : string :=
  match s with
  | EmptyString => EmptyString
  | String c r =>
      match rstrip r with
      | EmptyString => if isspace c then EmptyString else String c EmptyString
      | r' => String c r'
      end
  end.

(** [s.strip()] *)
Definition strip (s : string) : string := rstrip (lstrip s).

(** [s.startswith(p)] *)
Fixpoint startswith (p s : string) : bool :=
  match p, s with
  | EmptyString, _ => true
  | String a p', String b s' => if Ascii.eqb a b then startswith p' s' else false
  | String _ _, EmptyString => false
  end.

(** [sep in s] *)
Fixpoint contains (sep s : string) : bool :=
  startswith sep s ||
  match s with
  | EmptyString => false
  | String _ r => contains sep r
  end.

(** The scan of [s.split(sep)] for a non-empty [sep]: left to right, at
    each position either the separator starts there (the current block is
    closed and the separator is stepped over, [skip] counting the characters
    of it still to pass) or the character joins the current block.  The
    result is the current block and the blocks after it. *)
Fixpoint split_from (sep : string) (skip : nat) (s : string) : string * list string :=
  match s with
  | EmptyString => (EmptyString, [])
  | String c r =>
      match skip with
      | S k => split_from sep k r
      | O =>
          if startswith sep s
          then (EmptyString,
                let '(b, bs) := split_from sep (String.length sep - 1) r in b :: bs)
          else let '(b, bs) := split_from sep 0 r in (String c b, bs)
      end
  end.

Definition split (sep s : string) : list string :=
  let '(b, bs) := split_from sep 0 s in b :: bs.

(** The longest prefix of characters in a class, and the rest. *)
Fixpoint span (p : ascii -> bool) (s : string) : string * string :=
  match s with
  | EmptyString => (EmptyString, EmptyString)
  | String c r =>
      if p c then let '(a, b) := span p r in (String c a, b)
      else (EmptyString, s)
  end.

(** [sep.join(l)] *)
Fixpoint join (sep : string) (l : list string) : string :=
  match l with
  | [] => EmptyString
  | [b] => b
  | b :: bs => b +:+ sep +:+ join sep bs
  end.

(** [dict(pairs)]: later pairs replace earlier ones. *)
Definition dict (kvs : list (string * string)) : gmap string string :=
  fold_left (fun m kv => <[kv.1 := kv.2]> m) kvs ∅.

(** [d.get(k, dflt)] *)
Definition get (d : gmap string string) (k dflt : string) : string :=
  default dflt (d !! k).

(** [d.get(k) or b], where [b] is a [str]: the first operand when it is a
    non-empty string, else the second. *)
Definition get_or (d : gmap string string) (k : string) (b : string) : string :=
  match d !! k with
  | Some (String c r) => String c r
  | _ => b
  end.

End Py.


(** ** [datetime.strptime] for the format ["%Y.%m.%d %H:%M:%S"]

    The parser calls the standard library here.  The module follows what
    [_strptime] does for this one format: the regular expression of each
    directive, the literal characters, the check that no text remains, the
    checks of the [date] and [datetime] constructors, and the count of
    seconds since 1970-01-01 in UTC. *)

Module Datetime.

Record datetime : Type := {
  year : Z; month : Z; day : Z;
  hour : Z; minute : Z; second : Z
}.

(** A character class, and the regular expressions [_strptime] builds for
    the directives: an alternation of sequences of classes, tried in order.
    A directive is followed in this format by ['.'], by [':'], by white
    space or by the end of the pattern, none of which matches a digit, so
    the first alternative that matches is the one the search keeps. *)
Definition cls : Type := ascii -> bool.

Definition d_ : cls := Py.isdecimal.
Definition dig (lo hi : Z) : cls := Py.in_range (48 + lo) (48 + hi).
Definition lit (a : ascii) : cls := Ascii.eqb a.

Fixpoint match_seq (cs : list cls) (s : string) : option (string * string) :=
  match cs with
  | [] => Some (EmptyString, s)
  | p :: cs' =>
      match s with
      | String c r =>
          if p c
          then match match_seq cs' r with
               | Some (m, rest) => Some (String c m, rest)
               | None => None
               end
          else None
      | EmptyString => None
      end
  end.

Fixpoint first_alt (alts : list (list cls)) (s : string) : option (string * string) :=
  match alts with
  | [] => None
  | a :: alts' =>
      match match_seq a s with
      | Some r => Some r
      | None => first_alt alts' s
      end
  end.

Definition re_Y : list (list cls) := [[d_; d_; d_; d_]].
Definition re_m : list (list cls) :=
  [[lit "1"; dig 0 2]; [lit "0"; dig 1 9]; [dig 1 9]].
Definition re_d : list (list cls) :=
  [[lit "3"; dig 0 1]; [dig 1 2; d_]; [lit "0"; dig 1 9]; [dig 1 9];
   [lit " "; dig 1 9]].
Definition re_H : list (list cls) := [[lit "2"; dig 0 3]; [dig 0 1; d_]; [d_]].
Definition re_M : list (list cls) := [[dig 0 5; d_]; [d_]].
Definition re_S : list (list cls) := [[lit "6"; dig 0 1]; [dig 0 5; d_]; [d_]].

(** [int(text)] for the text of a directive: decimal digits, after an
    optional leading space. *)
Fixpoint int_acc (acc : Z) (s : string) : Z :=
  match s with
  | EmptyString => acc
  | String c r =>
      if Py.isdecimal c then int_acc (10 * acc + (Py.code c - 48)) r
      else int_acc acc r
  end.
Definition int (s : string) : Z := int_acc 0 s.

Definition field (re : list (list cls)) (s : string) : option (Z * string) :=
  match first_alt re s with
  | Some (m, rest) => Some (int m, rest)
  | None => None
  end.

Definition literal (a : ascii) (s : string) : option string :=
  match s with
  | String c r => if Ascii.eqb a c then Some r else None
  | EmptyString => None
  end.

(** White space in the format stands for [\s+]. *)
Definition spaces (s : string) : option string :=
  match Py.span Py.isspace s with
  | (EmptyString, _) => None
  | (_, rest) => Some rest
  end.

Definition is_leap (y : Z) : bool :=
  (y mod 4 =? 0) && (negb (y mod 100 =? 0) || (y mod 400 =? 0)).

Definition days_in_month (y m : Z) : Z :=
  if m =? 2 then (if is_leap y then 29 else 28)
  else if (m =? 4) || (m =? 6) || (m =? 9) || (m =? 11) then 30
  else 31.

Definition days_before_year (y : Z) : Z :=
  let p := y - 1 in p * 365 + p / 4 - p / 100 + p / 400.

Fixpoint days_before_month_nat (y : Z) (m : nat) : Z :=
  match m with
  | O => 0
  | S k => days_before_month_nat y k + days_in_month y (Z.of_nat (S k))
  end.

(** Days of the year before the first of month [m]. *)
Definition days_before_month (y m : Z) : Z :=
  days_before_month_nat y (Z.to_nat (m - 1)).

(** [date(y, m, d).toordinal()] *)
Definition toordinal (y m d : Z) : Z :=
  days_before_year y + days_before_month y m + d.

(** The checks of the [date] and [datetime] constructors. *)
Definition valid (dt : datetime) : bool :=
  (1 <=? year dt) && (year dt <=? 9999)
  && (1 <=? month dt) && (month dt <=? 12)
  && (1 <=? day dt) && (day dt <=? days_in_month (year dt) (month dt))
  && (0 <=? hour dt) && (hour dt <=? 23)
  && (0 <=? minute dt) && (minute dt <=? 59)
  && (0 <=? second dt) && (second dt <=? 59).

(** The match of ["%Y.%m.%d %H:%M:%S"] against the whole text. *)
Definition scan (s : string) : option datetime :=
  '(yy, s) ← field re_Y s;
  s ← literal "." s;
  '(mo, s) ← field re_m s;
  s ← literal "." s;
  '(dd, s) ← field re_d s;
  s ← spaces s;
  '(hh, s) ← field re_H s;
  s ← literal ":" s;
  '(mi, s) ← field re_M s;
  s ← literal ":" s;
  '(ss, s) ← field re_S s;
  match s with
  | EmptyString =>
      Some {| year := yy; month := mo; day := dd;
              hour := hh; minute := mi; second := ss |}
  | String _ _ => None
  end.

(** [datetime.strptime(s, "%Y.%m.%d %H:%M:%S")]: [ValueError] when the text
    does not match, when text remains, or when the fields are no date. *)
Definition strptime (s : string) : result datetime :=
  match scan s with
  | Some dt => if valid dt then Ok dt else Raise ValueError
  | None => Raise ValueError
  end.

(** [int(dt.replace(tzinfo=timezone.utc).timestamp())] *)
Definition timestamp (dt : datetime) : Z :=
  (toordinal (year dt) (month dt) (day dt) - 719163) * 86400
  + hour dt * 3600 + minute dt * 60 + second dt.

End Datetime.


(** ** The PGN batch parser ([acco/fetch_games.py]) *)

Module Parser.

Record GameRecord : Type := {
  url : string;
  pgn : string;
  end_time : Z;
  time_control : string;
  white : string;
  black : string
}.

Definition nl : ascii := "010"%char.
Definition quote : ascii := "034"%char.

(** The separator of [raw_pgn_text.split]: a blank line, then ["[Event"]. *)
Definition event_sep : string := String nl (String nl "[Event").

(** One match of the tag pattern starting at the head of [s]: an opening
    bracket, a key [\w+], white space [\s+], a quote, a value of characters
    other than the quote, a quote and a closing bracket.  The result is the
    two groups and the length of the match.  Each repetition is followed by
    a character outside its class, so the greedy match is the only one. *)
Definition match_tag (s : string) : option (string * string * nat) :=
  match s with
  | String "[" s1 =>
      match Py.span Py.isword s1 with
      | (EmptyString, _) => None
      | (k, s2) =>
          match Py.span Py.isspace s2 with
          | (EmptyString, _) => None
          | (ws, String c3 s4) =>
              if Ascii.eqb c3 quote then
                match Py.span (fun c => negb (Ascii.eqb c quote)) s4 with
                | (v, String c5 (String "]" _)) =>
                    if Ascii.eqb c5 quote
                    then Some (k, v,
                               (1 + String.length k + String.length ws + 1
                                + String.length v + 2)%nat)
                    else None
                | _ => None
                end
              else None
          | (_, EmptyString) => None
          end
      end
  | _ => None
  end.

(** [re.findall(pattern, s)]: the matches from left to right, the search
    resuming after each match ([skip] counts the characters of the last
    match still to pass). *)
Fixpoint findall_from (skip : nat) (s : string) : list (string * string) :=
  match s with
  | EmptyString => []
  | String _ r =>
      match skip with
      | S k => findall_from k r
      | O =>
          match match_tag s with
          | Some (k, v, n) => (k, v) :: findall_from (n - 1) r
          | None => findall_from 0 r
          end
      end
  end.

Definition findall (s : string) : list (string * string) := findall_from 0 s.

(** [tags = dict(re.findall(...))] *)
Definition tags_of (pgn : string) : gmap string string := Py.dict (findall pgn).

Definition date_of (tags : gmap string string) : string :=
  Py.get_or tags "EndDate" (Py.get_or tags "UTCDate" (Py.get tags "Date" "")).

Definition time_str_of (tags : gmap string string) : string :=
  Py.get_or tags "EndTime" (Py.get_or tags "UTCTime" (Py.get tags "StartTime" "")).

(** The [try] block of the loop body and its [except Exception]. *)
Definition end_ts_of (tags : gmap string string) : result Z :=
  try_except
    (rbind (Datetime.strptime (date_of tags +:+ " " +:+ time_str_of tags))
           (fun dt => Ok (Datetime.timestamp dt)))
    (fun _ => Ok 0).

(** The body of the loop for block [blk] at index [i]. *)
Definition parse_block (i : nat) (blk : string) : result GameRecord :=
  let blk := if (0 <? i)%nat then "[Event" +:+ blk else blk in
  let pgn := Py.strip blk in
  let tags := tags_of pgn in
  rbind (end_ts_of tags) (fun end_ts =>
  Ok {| url := Py.get tags "Link" "";
        pgn := pgn;
        end_time := end_ts;
        time_control := Py.get tags "TimeControl" "";
        white := Py.get tags "White" "";
        black := Py.get tags "Black" "" |}).

(** [for i, blk in enumerate(blocks): ... games.append(...)] *)
Fixpoint parse_blocks (i : nat) (blocks : list string) (games : list GameRecord)
  : result (list GameRecord) :=
  match blocks with
  | [] => Ok games
  | blk :: rest =>
      rbind (parse_block i blk) (fun g => parse_blocks (S i) rest (games ++ [g]))
  end.

Definition parse_pgn_games (raw_pgn_text : string) : result (list GameRecord) :=
  parse_blocks 0 (Py.split event_sep raw_pgn_text) [].

End Parser.


(** ** The game store (table [games], primary key [url]) *)

Module Store.

(** The JSON object written to the column [evaluation_data]. *)
Record EvalData : Type := {
  scores : list (option Q);
  is_mate : list bool;
  wdl_probs : list (Q * Q * Q);
  depth : Z
}.

(** The columns of a row other than its key [url]; [evaluation_data] is
    [None] for SQL NULL. *)
Record Row : Type := {
  pgn : string;
  end_time : Z;
  white : string;
  black : string;
  time_control : string;
  evaluation_data : option EvalData
}.

(** The row of [INSERT ... (url, pgn, end_time, white, black, time_control)]:
    the column [evaluation_data] is left NULL. *)
Definition row_of (g : Parser.GameRecord) : Row :=
  {| pgn := Parser.pgn g;
     end_time := Parser.end_time g;
     white := Parser.white g;
     black := Parser.black g;
     time_control := Parser.time_control g;
     evaluation_data := None |}.

(** [INSERT OR IGNORE INTO games ...]: the new table and [cur.rowcount]. *)
Definition insert_or_ignore (db : gmap string Row) (g : Parser.GameRecord)
  : gmap string Row * nat :=
  match db !! Parser.url g with
  | Some _ => (db, 0%nat)
  | None => (<[Parser.url g := row_of g]> db, 1%nat)
  end.

(** The loop [for g in games] of [fetch_current_month_games_and_save_to_db]:
    the table after it and [new_count]. *)
Fixpoint upsert_loop (db : gmap string Row) (games : list Parser.GameRecord)
  (new_count : nat) : gmap string Row * nat :=
  match games with
  | [] => (db, new_count)
  | g :: rest =>
      let '(db', rowcount) := insert_or_ignore db g in
      upsert_loop db' rest
        (match rowcount with O => new_count | S _ => (new_count + 1)%nat end)
  end.

Definition upsert (db : gmap string Row) (games : list Parser.GameRecord)
  : gmap string Row * nat :=
  upsert_loop db games 0.

Definition set_evaluation (data : EvalData) (r : Row) : Row :=
  {| pgn := pgn r; end_time := end_time r; white := white r;
     black := black r; time_control := time_control r;
     evaluation_data := Some data |}.

(** [UPDATE games SET evaluation_data = ? WHERE url = ?] *)
Definition update_evaluation (db : gmap string Row) (url : string) (data : EvalData)
  : gmap string Row :=
  alter (set_evaluation data) url db.

(** The part of [fetch_current_month_games_and_save_to_db] after the
    download: a blank text is answered before any parsing, and so is an
    empty list of games; otherwise the games are stored.  The result is the
    table and the number of new rows. *)
Definition save_to_db (raw_pgn : string) (db : gmap string Row)
  : gmap string Row * nat :=
  match Py.strip raw_pgn with
  | EmptyString => (db, 0%nat)
  | String _ _ =>
      match Parser.parse_pgn_games raw_pgn with
      | Ok [] => (db, 0%nat)
      | Ok games => upsert db games
      | Raise _ => (db, 0%nat)
      end
  end.

(** Evaluation writes made between two fetches. *)
Definition apply_updates (db : gmap string Row) (ws : list (string * EvalData))
  : gmap string Row :=
  fold_left (fun d w => update_evaluation d w.1 w.2) ws db.

End Store.

(** ** The chess library and the engine, as the viewer uses them *)

Module Chess.

Inductive Color : Type := White | Black.

Definition Color_eqb (a b : Color) : bool :=
  match a, b with
  | White, White | Black, Black => true
  | _, _ => false
  end.

(** [chess.engine.Score]: centipawns, mate in [moves] (negative when being
    mated), or mate given on the board. *)
Inductive Score : Type :=
  | Cp (cp : Z)
  | Mate (moves : Z)
  | MateGiven.

(** [Score.is_mate()] *)
Definition is_mate (s : Score) : bool :=
  match s with
  | Cp _ => false
  | Mate _ | MateGiven => true
  end.

(** [Score.score(mate_score=...)]: [None] for a mate score unless
    [mate_score] is given. *)
Definition score (s : Score) (mate_score : option Z) : option Z :=
  match s with
  | Cp c => Some c
  | Mate n =>
      match mate_score with
      | None => None
      | Some ms => if 0 <? n then Some (ms - n) else Some (- ms - n)
      end
  | MateGiven => mate_score
  end.

(** [-score] *)
Definition neg (s : Score) : Score :=
  match s with
  | Cp c => Cp (- c)
  | Mate n => if n =? 0 then MateGiven else Mate (- n)
  | MateGiven => Mate 0
  end.

(** [chess.engine.PovScore] *)
Record PovScore : Type := { relative : Score; turn : Color }.

(** [PovScore.pov(color)] *)
Definition pov (ps : PovScore) (color : Color) : Score :=
  if Color_eqb (turn ps) color then relative ps else neg (relative ps).

(** [chess.engine.Wdl]: win, draw and loss figures in permille. *)
Record Wdl : Type := { wins : Z; draws : Z; losses : Z }.

(** What the viewer takes from the chess library without looking inside:
    positions and moves, the standard starting position of [chess.Board()],
    the effect of [board.push(move)] on a position, the games
    [chess.pgn.read_game] reads and the win-draw-loss model [Score.wdl()]. *)
Class Lib : Type := {
  Position : Type;
  Move : Type;
  starting_position : Position;
  push : Position -> Move -> Position;
  wdl : Score -> Wdl
}.

(** A game read from PGN text: the [White] and [Black] headers, the
    position set up by a [FEN] header if there is one, and the main line. *)
Record Game `{Lib} : Type := {
  header_white : string;
  header_black : string;
  setup : option Position;
  mainline_moves : list Move
}.

(** [game.board()]: the set-up position, else the standard one. *)
Definition game_board `{Lib} (g : Game) : Position :=
  default starting_position (setup g).

(** The engine and the PGN reader.  [analyse n board depth] is the outcome
    of [engine.analyse(board, Limit(depth=depth))] when [n] calls were made
    before it: the score of [info], or the exception raised.
    [read_game pgn] is [None] when the text holds no game. *)
Class Engine `{Lib} : Type := {
  analyse : nat -> Position -> Z -> result PovScore;
  read_game : string -> option Game
}.

End Chess.

(** ** Move replay ([GameViewer.on_game_select], [go_next],
       [on_slider_change]) *)

Module Replay.
Import Chess.

Section Replay.
Context `{Lib}.

(** The replay fields of the viewer; [board] is the position on
    [self.board]. *)
Record Viewer : Type := {
  moves : list Move;
  idx : nat;
  board : Position
}.

(** The replay part of [on_game_select]. *)
Definition on_game_select (g : Game) : Viewer :=
  {| moves := mainline_moves g; idx := 0%nat; board := game_board g |}.

Definition go_next (st : Viewer) : Viewer :=
  match moves st !! idx st with
  | Some m =>
      {| moves := moves st; idx := S (idx st); board := push (board st) m |}
  | None => st
  end.

(** [for i in range(target_idx): if i < len(self.moves): push] *)
Definition push_upto (ms : list Move) (target_idx : nat) (b : Position) : Position :=
  fold_left
    (fun b i => match ms !! i with Some m => push b m | None => b end)
    (seq 0 target_idx) b.

Definition on_slider_change (target_idx : nat) (st : Viewer) : Viewer :=
  if decide (target_idx <> idx st)
  then {| moves := moves st;
          idx := target_idx;
          board := push_upto (moves st) target_idx starting_position |}
  else st.

End Replay.
End Replay.

(** ** The evaluation pipeline ([calculate_stockfish_scores],
       [calculate_wdl_probabilities], [run_evaluation_analysis]) *)

Module Evaluation.
Import Chess.

(** What a run reads and writes outside its local variables. *)
Record World : Type := {
  engine_calls : nat;                       (* calls made to the engine *)
  db : gmap string Store.Row;               (* the table [games] *)
  db_writable : bool;      (* whether connect, UPDATE and commit go through *)
  progress : list (nat * nat);              (* [update_eval_progress] calls *)
  eval_history : option (list (option Q) * list bool);
  wdl_history : option (list (Q * Q * Q))
}.

(** A computation on the world that returns or raises. *)
Definition M (A : Type) : Type := World -> result A * World.

Definition ret {A} (a : A) : M A := fun w => (Ok a, w).

Definition raise {A} (e : exn) : M A := fun w => (Raise e, w).

Definition bind {A B} (m : M A) (k : A -> M B) : M B :=
  fun w =>
    match m w with
    | (Ok a, w') => k a w'
    | (Raise e, w') => (Raise e, w')
    end.

Notation "x <~ m ;; k" := (bind m (fun x => k))
  (at level 100, m at next level, right associativity).

Section Run.
Context `{Engine}.
Variable current_user : string.

(** [self.engine.analyse(board, chess.engine.Limit(depth=depth))["score"]] *)
Definition engine_analyse (board : Position) (depth : Z) : M PovScore :=
  fun w =>
    (analyse (engine_calls w) board depth,
     {| engine_calls := S (engine_calls w); db := db w;
        db_writable := db_writable w;
        progress := progress w; eval_history := eval_history w;
        wdl_history := wdl_history w |}).

(** [self.after(0, self.update_eval_progress, current, total)] *)
Definition notify_progress (current total : nat) : M unit :=
  fun w =>
    (Ok tt,
     {| engine_calls := engine_calls w; db := db w;
        db_writable := db_writable w;
        progress := progress w ++ [(current, total)];
        eval_history := eval_history w; wdl_history := wdl_history w |}).

(** The side whose point of view is taken: White unless the current user
    plays Black (and not White). *)
Definition pov_color (game : Game) : Color :=
  if decide (Py.lower (header_white game) = Py.lower current_user) then White
  else if decide (Py.lower (header_black game) = Py.lower current_user) then Black
  else White.

(** The entry appended to [is_mate] and the entry appended to [scores] for
    one score of the engine. *)
Definition extract (score_obj : Score) : bool * option Q :=
  if is_mate score_obj
  then (true, inject_Z <$> score score_obj (Some 10))
  else (false,
        Some (match score score_obj None with
              | Some cp => cp # 100
              | None => 0%Q
              end)).

(** [for i, move in enumerate(game.mainline_moves(), 2)] of
    [calculate_stockfish_scores]. *)
Fixpoint scores_loop (color : Color) (depth : Z) (total : nat) (i : nat)
  (board : Position) (ms : list Move)
  (scores : list (option Q)) (is_mate : list bool)
  : M (list (option Q) * list bool) :=
  match ms with
  | [] => ret (scores, is_mate)
  | move :: rest =>
      let board := push board move in
      info <~ engine_analyse board depth ;;
      let '(mate, sc) := extract (pov info color) in
      _ <~ notify_progress i total ;;
      scores_loop color depth total (S i) board rest
        (scores ++ [sc]) (is_mate ++ [mate])
  end.

Definition calculate_stockfish_scores (game : Game) (depth : Z)
  : M (list (option Q) * list bool) :=
  let board := game_board game in
  let color := pov_color game in
  let total_positions := (1 + length (mainline_moves game))%nat in
  info <~ engine_analyse board depth ;;
  let '(mate, sc) := extract (pov info color) in
  _ <~ notify_progress 1 total_positions ;;
  scores_loop color depth total_positions 2 board (mainline_moves game)
    [sc] [mate].

(** [(wdl.wins / 1000.0, wdl.draws / 1000.0, wdl.losses / 1000.0)] *)
Definition wdl_triple (w : Wdl) : Q * Q * Q :=
  (wins w # 1000, draws w # 1000, losses w # 1000).

Fixpoint wdl_loop (color : Color) (depth : Z) (board : Position)
  (ms : list Move) (wdl_probs : list (Q * Q * Q)) : M (list (Q * Q * Q)) :=
  match ms with
  | [] => ret wdl_probs
  | move :: rest =>
      let board := push board move in
      info <~ engine_analyse board depth ;;
      wdl_loop color depth board rest
        (wdl_probs ++ [wdl_triple (wdl (pov info color))])
  end.

Definition calculate_wdl_probabilities (game : Game) (depth : Z)
  : M (list (Q * Q * Q)) :=
  let board := game_board game in
  let color := pov_color game in
  info <~ engine_analyse board depth ;;
  wdl_loop color depth board (mainline_moves game)
    [wdl_triple (wdl (pov info color))].

(** [game = chess.pgn.read_game(io.StringIO(pgn))]; with no game in the
    text the first use of [game] raises [AttributeError]. *)
Definition load_game (pgn : string) : M Game :=
  match read_game pgn with
  | Some g => ret g
  | None => raise AttributeError
  end.

(** The [UPDATE] of [run_evaluation_analysis], inside its [try]: when
    connect, UPDATE or commit raises, the exception is printed, nothing is
    stored and the run goes on. *)
Definition store_evaluation (url : string) (data : Store.EvalData) : M unit :=
  fun w =>
    (Ok tt,
     {| engine_calls := engine_calls w;
        db := if db_writable w
              then Store.update_evaluation (db w) url data
              else db w;
        db_writable := db_writable w;
        progress := progress w; eval_history := eval_history w;
        wdl_history := wdl_history w |}).

(** [self.after(0, self._clear_loading_widgets_and_update_plot, ...)] *)
Definition show_evaluation (scores : list (option Q)) (is_mate : list bool)
  (wdl_probs : list (Q * Q * Q)) : M unit :=
  fun w =>
    (Ok tt,
     {| engine_calls := engine_calls w; db := db w;
        db_writable := db_writable w; progress := progress w;
        eval_history := Some (scores, is_mate);
        wdl_history := Some wdl_probs |}).

Definition run_evaluation_analysis (url pgn : string) (depth : Z) : M unit :=
  game <~ load_game pgn ;;
  sm <~ calculate_stockfish_scores game depth ;;
  let '(scores, is_mate) := sm in
  wdl_probs <~ calculate_wdl_probabilities game depth ;;
  let eval_data :=
    {| Store.scores := scores; Store.is_mate := is_mate;
       Store.wdl_probs := wdl_probs; Store.depth := depth |} in
  _ <~ store_evaluation url eval_data ;;
  show_evaluation scores is_mate wdl_probs.

End Run.
End Evaluation.

(** ** The rating window ([plot_elo_history], [on_elo_range_change]) *)

Module Rating.

(** An entry of [processed_games]; [date] is the time stamp of the game. *)
Record RatingPoint : Type := {
  date : Z;
  elo : Z;
  time_control : string
}.

(** The two sliders, by the integers [int(slider.get())] reads. *)
Record Sliders : Type := {
  elo_start_slider : Z;
  elo_end_slider : Z
}.

(** A bound of a Python slice on a list of length [len]: a negative bound
    counts from the end, and bounds are cut to [0, len]. *)
Definition slice_bound (len i : Z) : Z :=
  if i <? 0 then Z.max 0 (i + len) else Z.min i len.

(** [l[a:b]] *)
Definition py_slice {A} (l : list A) (a b : Z) : list A :=
  let len := Z.of_nat (length l) in
  let a := slice_bound len a in
  let b := slice_bound len b in
  take (Z.to_nat (b - a)) (drop (Z.to_nat a) l).

(** The window selection of [plot_elo_history]: the sliders as it leaves
    them and [games_in_range_unfiltered_tc]. *)
Definition select_window (sl : Sliders) (processed_games : list RatingPoint)
  : Sliders * list RatingPoint :=
  let num_total_games := Z.of_nat (length processed_games) in
  let start_val := elo_start_slider sl in
  let end_val := elo_end_slider sl in
  let '(start_val, sl) :=
    if end_val <? start_val
    then (end_val, {| elo_start_slider := end_val; elo_end_slider := end_val |})
    else (start_val, sl) in
  let start_index := Z.max 0 (start_val - 1) in
  let end_index := Z.min num_total_games end_val in
  (sl, py_slice processed_games start_index end_index).


(** The slider adjustment of [on_elo_range_change], before it plots. *)
Definition on_elo_range_change (sl : Sliders) (num_points : nat) : Sliders :=
  let start_val := elo_start_slider sl in
  let end_val := elo_end_slider sl in
  match num_points with
  | O => sl
  | S _ =>
      let '(sl, end_val) :=
        if end_val <? start_val
        then ({| elo_start_slider := elo_start_slider sl;
                 elo_end_slider := start_val |}, start_val)
        else (sl, end_val) in
      if end_val <? start_val
      then {| elo_start_slider := end_val; elo_end_slider := elo_end_slider sl |}
      else sl
  end.

End Rating.

(** ** Definitions used to state the properties *)

(** The value the [try] block of the parser leaves in [end_ts]. *)
Definition end_ts_value (tags : gmap string string) : Z :=
  match Datetime.strptime (Parser.date_of tags +:+ " " +:+ Parser.time_str_of tags) with
  | Ok dt => Datetime.timestamp dt
  | Raise _ => 0
  end.

(** The text of block [i] after the parser has put ["[Event"] back. *)
Definition restore_event (i : nat) (blk : string) : string :=
  if (0 <? i)%nat then "[Event" +:+ blk else blk.

Definition record_of (i : nat) (blk : string) : Parser.GameRecord :=
  let pgn := Py.strip (restore_event i blk) in
  let tags := Parser.tags_of pgn in
  {| Parser.url := Py.get tags "Link" "";
     Parser.pgn := pgn;
     Parser.end_time := end_ts_value tags;
     Parser.time_control := Py.get tags "TimeControl" "";
     Parser.white := Py.get tags "White" "";
     Parser.black := Py.get tags "Black" "" |}.

(** The blank line between two games of an archive. *)
Definition blank_line : string := String Parser.nl (String Parser.nl "").

Fixpoint string_drop (n : nat) (s : string) : string :=
  match n, s with
  | S k, String _ r => string_drop k r
  | _, _ => s
  end.

Definition after_event (b : string) : string := string_drop 6 b.

(** A text of well-formed game blocks: at least one block, every block
    after the first opening with its [Event] tag, and no block holding a
    blank line followed by ["[Event"] inside. *)
Definition well_formed_blocks (blocks : list string) : Prop :=
  blocks <> []
  /\ Forall (fun b => Py.contains Parser.event_sep b = false) blocks
  /\ Forall (fun b => Py.startswith "[Event" b = true) (tail blocks).

(** The record of a block with no tag and no text. *)
Definition empty_record : Parser.GameRecord :=
  {| Parser.url := ""; Parser.pgn := ""; Parser.end_time := 0;
     Parser.time_control := ""; Parser.white := ""; Parser.black := "" |}.

(** The first operand that is a non-empty string, else the empty string. *)
Fixpoint first_nonempty (l : list (option string)) : string :=
  match l with
  | [] => ""
  | Some (String c r) :: _ => String c r
  | _ :: rest => first_nonempty rest
  end.

(** The time stamp read pair by pair, as the specification words it: the
    first of the pairs EndDate and EndTime, UTCDate and UTCTime, Date and
    StartTime whose two tags are both present, and 0 when the pair does
    not parse or no pair is complete. *)
Definition tag_pair (tags : gmap string string) (d t : string)
  : option (string * string) :=
  match tags !! d, tags !! t with
  | Some a, Some b => Some (a, b)
  | _, _ => None
  end.

Definition spec_end_time_by_pairs (tags : gmap string string) : Z :=
  match
    match tag_pair tags "EndDate" "EndTime" with
    | Some p => Some p
    | None =>
        match tag_pair tags "UTCDate" "UTCTime" with
        | Some p => Some p
        | None => tag_pair tags "Date" "StartTime"
        end
    end
  with
  | Some (d, t) =>
      match Datetime.strptime (d +:+ " " +:+ t) with
      | Ok dt => Datetime.timestamp dt
      | Raise _ => 0
      end
  | None => 0
  end.

(** A tag line of a PGN header. *)
Definition tag_line (k v : string) : string :=
  "[" +:+ k +:+ " " +:+ String Parser.quote (v +:+ String Parser.quote "]").

Definition lines (l : list string) : string :=
  Py.join (String Parser.nl "") l.

(** A header whose date and time tags come from different pairs. *)
Definition mixed_tags_pgn : string :=
  lines [tag_line "EndDate" "2024.01.01";
         tag_line "UTCDate" "2023.01.01";
         tag_line "UTCTime" "12:00:00"].

(** The scenario of the specification. *)
Definition scenario_pgn : string :=
  lines [tag_line "Event" "Test"; tag_line "White" "alice";
         tag_line "Black" "bob"; tag_line "Result" "1-0";
         tag_line "WhiteElo" "1500"; tag_line "BlackElo" "1400";
         tag_line "EndDate" "2024.01.01"; tag_line "EndTime" "12:00:00";
         "1. e4 e5 *"].

(** Two games without a [Link] tag, a blank line between them, and the
    records of the two. *)
Definition linkless_game_a : string :=
  lines [tag_line "Event" "A"; tag_line "White" "alice"; "1. e4 *"].

Definition linkless_game_b : string :=
  lines [tag_line "Event" "B"; tag_line "White" "carol"; "1. d4 *"].

Definition two_linkless_games : list string :=
  [linkless_game_a; linkless_game_b].

Definition linkless_record_a : Parser.GameRecord := record_of 0 linkless_game_a.

Definition linkless_record_b : Parser.GameRecord := record_of 0 linkless_game_b.

(** A game with a [Link] tag, its record, and an archive of the three
    games. *)
Definition linked_game : string :=
  lines [tag_line "Event" "C";
         tag_line "Link" "https://www.chess.com/game/live/2";
         tag_line "White" "carol"; tag_line "Black" "alice"; "1. d4 d5 *"].

Definition linked_game_record : Parser.GameRecord := record_of 0 linked_game.

Definition three_games : list string :=
  [linked_game; linkless_game_a; linkless_game_b].


(** The positions of a game, from the position before the first move to
    the final one. *)
Fixpoint boards_from `{Chess.Lib} (b : Chess.Position) (ms : list Chess.Move)
  : list Chess.Position :=
  match ms with
  | [] => []
  | m :: rest => Chess.push b m :: boards_from (Chess.push b m) rest
  end.

Definition boards `{Chess.Lib} (g : Chess.Game) : list Chess.Position :=
  Chess.game_board g :: boards_from (Chess.game_board g) (Chess.mainline_moves g).

(** The answers of the engine to one call per position of [bs], the first
    of them being call number [n]; the exception of the first call that
    raises, if one does. *)
Fixpoint ask_all `{Chess.Engine} (n : nat) (bs : list Chess.Position) (depth : Z)
  : result (list Chess.PovScore) :=
  match bs with
  | [] => Ok []
  | b :: rest =>
      rbind (Chess.analyse n b depth) (fun s =>
      rbind (ask_all (S n) rest depth) (fun l => Ok (s :: l)))
  end.

(** A run leaves the table and the displayed evaluation as they were. *)
Definition untouched (w w' : Evaluation.World) : Prop :=
  Evaluation.db w' = Evaluation.db w
  /\ Evaluation.eval_history w' = Evaluation.eval_history w
  /\ Evaluation.wdl_history w' = Evaluation.wdl_history w.

(** A triple of probabilities sums to 1.0 within 0.01. *)
Definition sums_to_one (t : Q * Q * Q) : Prop :=
  let '(a, b, c) := t in
  (99 # 100 <= a + b + c)%Q /\ (a + b + c <= 101 # 100)%Q.

(** The figures of [Score.wdl()] are permille: they add up to 1000. *)
Definition wdl_permille `{Chess.Lib} : Prop :=
  forall s : Chess.Score,
    Chess.wins (Chess.wdl s) + Chess.draws (Chess.wdl s)
    + Chess.losses (Chess.wdl s) = 1000.

(** *** A small model of the chess library and of an engine, for examples

    A position is the FEN text the game started from and the moves played
    since; a move is its UCI text. *)
Definition standard_fen : string :=
  "rnbqkbnr/pppppppp/8/8/8/8/PPPPPPPP/RNBQKBNR w KQkq - 0 1".

Definition sample_lib : Chess.Lib :=
  {| Chess.Position := string * list string;
     Chess.Move := string;
     Chess.starting_position := (standard_fen, []);
     Chess.push := fun p m => (p.1, p.2 ++ [m]);
     Chess.wdl := fun s =>
       match s with
       | Chess.Cp c =>
           if 0 <? c then {| Chess.wins := 600; Chess.draws := 300; Chess.losses := 100 |}
           else {| Chess.wins := 100; Chess.draws := 300; Chess.losses := 600 |}
       | Chess.Mate n =>
           if 0 <? n then {| Chess.wins := 1000; Chess.draws := 0; Chess.losses := 0 |}
           else {| Chess.wins := 0; Chess.draws := 0; Chess.losses := 1000 |}
       | Chess.MateGiven =>
           {| Chess.wins := 1000; Chess.draws := 0; Chess.losses := 0 |}
       end |}.

(** A game of two plies from the standard position, and a game that starts
    from a position set up by a [FEN] header. *)
Definition sample_game : @Chess.Game sample_lib :=
  @Chess.Build_Game sample_lib "alice" "bob" None ["e2e4"; "e7e5"].

Definition setup_fen : string := "4k3/8/8/8/8/8/4P3/4K3 w - - 0 1".

Definition setup_game : @Chess.Game sample_lib :=
  @Chess.Build_Game sample_lib "alice" "bob" (Some (setup_fen, []))
    ["e2e4"; "e8d7"].

(** An engine that answers every call, White to move being 0.3 pawns up. *)
Definition steady_engine : @Chess.Engine sample_lib :=
  @Chess.Build_Engine sample_lib
    (fun _ _ _ =>
       Ok {| Chess.relative := Chess.Cp 30; Chess.turn := Chess.White |})
    (fun _ => Some sample_game).

(** An engine that stops answering from its fifth call on. *)
Definition failing_engine : @Chess.Engine sample_lib :=
  @Chess.Build_Engine sample_lib
    (fun n _ _ =>
       if (n <? 4)%nat
       then Ok {| Chess.relative := Chess.Cp 30; Chess.turn := Chess.White |}
       else Raise EngineError)
    (fun _ => Some sample_game).

Definition sample_eval : Store.EvalData :=
  {| Store.scores := [Some (30 # 100)]; Store.is_mate := [false];
     Store.wdl_probs := [(600 # 1000, 300 # 1000, 100 # 1000)];
     Store.depth := 10 |}.

(** A table with one evaluated game, and the world around it. *)
Definition sample_world : Evaluation.World :=
  {| Evaluation.engine_calls := 0;
     Evaluation.db := {[ "https://www.chess.com/game/live/1" :=
                   {| Store.pgn := "1. e4 e5 *"; Store.end_time := 1704110400;
                      Store.white := "alice"; Store.black := "bob";
                      Store.time_control := "600";
                      Store.evaluation_data := Some sample_eval |} ]};
     Evaluation.db_writable := true;
     Evaluation.progress := [];
     Evaluation.eval_history := None;
     Evaluation.wdl_history := None |}.

(** The same world with a database file that does not take the UPDATE. *)
Definition sample_world_locked : Evaluation.World :=
  {| Evaluation.engine_calls := 0;
     Evaluation.db := Evaluation.db sample_world;
     Evaluation.db_writable := false;
     Evaluation.progress := [];
     Evaluation.eval_history := None;
     Evaluation.wdl_history := None |}.

(** Five rating points in date order. *)
Definition sample_points : list Rating.RatingPoint :=
  [ {| Rating.date := 1704110400; Rating.elo := 1500; Rating.time_control := "600" |};
    {| Rating.date := 1704196800; Rating.elo := 1508; Rating.time_control := "600" |};
    {| Rating.date := 1704283200; Rating.elo := 1499; Rating.time_control := "180" |};
    {| Rating.date := 1704369600; Rating.elo := 1507; Rating.time_control := "600" |};
    {| Rating.date := 1704456000; Rating.elo := 1515; Rating.time_control := "180" |} ].

(** The entries a pass of the pipeline records for the answers [infos]. *)
Definition scores_of (color : Chess.Color) (infos : list Chess.PovScore)
  : list (option Q) :=
  map (fun info => (Evaluation.extract (Chess.pov info color)).2) infos.

Definition mates_of (color : Chess.Color) (infos : list Chess.PovScore)
  : list bool :=
  map (fun info => (Evaluation.extract (Chess.pov info color)).1) infos.

Definition wdl_of `{Chess.Lib} (color : Chess.Color) (infos : list Chess.PovScore)
  : list (Q * Q * Q) :=
  map (fun info => Evaluation.wdl_triple (Chess.wdl (Chess.pov info color))) infos.

(** The number of plies of a game. *)
Definition plies `{Chess.Lib} (g : Chess.Game) : nat :=
  length (Chess.mainline_moves g).

(** The world a run of the steady engine leaves behind [sample_world]. *)
Definition sample_world_evaluated : Evaluation.World :=
  (Evaluation.run_evaluation_analysis (H0 := steady_engine) "alice"
     "https://www.chess.com/game/live/1" "1. e4 e5 *" 10 sample_world).2.

(** ** Further definitions used to state properties *)

(** A PGN header written out: one tag line per pair, each ended by a line
    break, then the rest of the text. *)
Fixpoint header_text (kvs : list (string * string)) (rest : string) : string :=
  match kvs with
  | [] => rest
  | (k, v) :: kvs' =>
      tag_line k v +:+ String Parser.nl (header_text kvs' rest)
  end.

(** Every character of the text is in the class. *)
Fixpoint string_forall (p : ascii -> bool) (s : string) : bool :=
  match s with
  | EmptyString => true
  | String c r => p c && string_forall p r
  end.

(** A tag key the pattern can read back: a non-empty word. *)
Definition tag_key_ok (k : string) : Prop :=
  k <> "" /\ string_forall Py.isword k = true.

(** A tag value the pattern can read back: no quote inside. *)
Definition tag_value_ok (v : string) : Prop :=
  string_forall (fun c => negb (Ascii.eqb c Parser.quote)) v = true.

(** The last value paired with key [k] in a list of pairs. *)
Fixpoint last_value (k : string) (kvs : list (string * string)) : option string :=
  match kvs with
  | [] => None
  | (k', v) :: rest =>
      match last_value k rest with
      | Some v' => Some v'
      | None => if decide (k' = k) then Some v else None
      end
  end.

(** The [url] keys of a batch. *)
Definition urls (games : list Parser.GameRecord) : list string :=
  map Parser.url games.

(** A header of two tags and a move text. *)
Definition sample_header : list (string * string) :=
  [("White", "alice"); ("Black", "bob"); ("White", "carol")].

(** ** The schema of the table [games] ([ensure_db], the start of
       [GameViewer], [SettingsDialog.create_new_database]) *)

Module Schema.

(** The table [games] of a database file: absent, or the names of its
    columns in order, as [PRAGMA table_info(games)] lists them. *)
Definition table : Type := option (list string).

(** An SQL statement returns or raises [sqlite3.OperationalError]. *)
Inductive sql (A : Type) : Type :=
  | Done (a : A)
  | OperationalError.
Arguments Done {A} a.
Arguments OperationalError {A}.

(** SQLite compares column names without regard to the case of the
    letters A to Z. *)
Definition fold_case_char (c : ascii) : ascii :=
  if Py.in_range 65 90 c then ascii_of_N (N_of_ascii c + 32) else c.

Fixpoint fold_case (s : string) : string :=
  match s with
  | EmptyString => EmptyString
  | String c r => String (fold_case_char c) (fold_case r)
  end.

Definition same_column (a b : string) : bool :=
  bool_decide (fold_case a = fold_case b).

(** [CREATE TABLE IF NOT EXISTS games (...)] with the given columns. *)
Definition create_if_not_exists (cols : list string) (t : table) : table :=
  match t with
  | None => Some cols
  | Some _ => t
  end.

(** [ALTER TABLE games ADD COLUMN c]: an error without the table or with
    a column of that name. *)
Definition add_column (c : string) (t : table) : sql table :=
  match t with
  | None => OperationalError
  | Some cols =>
      if existsb (same_column c) cols then OperationalError
      else Done (Some (cols ++ [c]))
  end.

(** The names [PRAGMA table_info(games)] returns: none without the table. *)
Definition table_info (t : table) : list string := default [] t.

Definition base_columns : list string :=
  ["url"; "pgn"; "end_time"; "white"; "black"].

(** [ensure_db] of [fetch_games.py]. *)
Definition ensure_db (t : table) : sql table :=
  let t := create_if_not_exists base_columns t in
  let existing := table_info t in
  if bool_decide ("time_control" ∈ existing) then Done t
  else add_column "time_control" t.

(** The migration at the start of [GameViewer]: the error of the [ALTER]
    is caught and printed. *)
Definition viewer_migration (t : table) : table :=
  let columns := table_info t in
  if bool_decide ("evaluation_data" ∈ columns) then t
  else match add_column "evaluation_data" t with
       | Done t' => t'
       | OperationalError => t
       end.

(** The table [create_new_database] of the settings dialog creates. *)
Definition settings_columns : list string :=
  ["url"; "pgn"; "white"; "black"; "end_time"; "cheating_analysis";
   "evaluation_data"].

(** The columns the [INSERT] of the fetch names, and those the queries of
    the viewer name. *)
Definition insert_columns : list string :=
  ["url"; "pgn"; "end_time"; "white"; "black"; "time_control"].

Definition viewer_columns : list string :=
  ["url"; "pgn"; "white"; "black"; "end_time"; "evaluation_data"].

End Schema.

(** ** Fetch and save ([fetch_current_month_games_and_save_to_db]) *)

Module Fetch.

(** What [fetch_month_pgn] does: it returns the text of the archive, or
    [raise_for_status] raises [HTTPError] with the status code, or another
    exception leaves the request. *)
Inductive response : Type :=
  | Body (text : string)
  | HTTPError (status_code : Z)
  | OtherException.

(** The messages of the function, by their kind and the numbers they
    carry. *)
Inductive message : Type :=
  | NoGamesFound
  | ParsedZeroGames
  | NotFound404
  | HttpErrorFetching (status_code : Z)
  | ErrorFetchingOrParsing
  | Processed (n_games new_count : nat)
  | DatabaseError.

(** A database file: the schema of its table and the rows. *)
Record database : Type := {
  schema : Schema.table;
  rows : gmap string Store.Row
}.

(** The [INSERT] needs every column it names. *)
Definition insert_possible (t : Schema.table) : bool :=
  forallb (fun c => existsb (Schema.same_column c) (Schema.table_info t))
    Schema.insert_columns.

(** The part of the function that writes: [ensure_db] commits its own
    change; the rows are committed after the loop, so an error of the
    first [INSERT] leaves them as they were. *)
Definition save (games : list Parser.GameRecord) (db : database)
  : (bool * message) * database :=
  match Schema.ensure_db (schema db) with
  | Schema.OperationalError => ((false, DatabaseError), db)
  | Schema.Done t =>
      if insert_possible t
      then let '(rows', new_count) := Store.upsert (rows db) games in
           ((true, Processed (length games) new_count),
            {| schema := t; rows := rows' |})
      else ((false, DatabaseError), {| schema := t; rows := rows db |})
  end.

Definition fetch_current_month_games_and_save_to_db (resp : response)
  (db : database) : (bool * message) * database :=
  match resp with
  | HTTPError status_code =>
      if status_code =? 404 then ((true, NotFound404), db)
      else ((false, HttpErrorFetching status_code), db)
  | OtherException => ((false, ErrorFetchingOrParsing), db)
  | Body raw_pgn =>
      match Py.strip raw_pgn with
      | EmptyString => ((true, NoGamesFound), db)
      | String _ _ =>
          match Parser.parse_pgn_games raw_pgn with
          | Raise _ => ((false, ErrorFetchingOrParsing), db)
          | Ok [] => ((true, ParsedZeroGames), db)
          | Ok games => save games db
          end
      end
  end.

End Fetch.

(** ** Navigation with the move stack ([on_game_select], [go_next],
       [go_prev], [go_start], [go_end], [on_slider_change]) *)

Module Nav.
Import Chess.

(** What [Board.push] asserts of a move before it plays it: that the
    square the move starts from holds a piece.  [piece_at_from_square p m]
    tells whether it does in position [p]. *)
Class Squares `{Lib} : Type := {
  piece_at_from_square : Position -> Move -> bool
}.

Section Nav.
Context `{Engine}.
Context {squares : Squares}.

(** [chess.Board] as the viewer uses it: the position, and the positions
    before each move pushed, the latest first; [pop] needs them. *)
Record Board : Type := {
  position : Position;
  stack : list Position
}.

(** A new board: [chess.Board()] or [game.board()]. *)
Definition board_at (p : Position) : Board :=
  {| position := p; stack := [] |}.

(** The board after a move that [push] accepts. *)
Definition pushed (b : Board) (m : Move) : Board :=
  {| position := push (position b) m; stack := position b :: stack b |}.

(** [board.push(move)]: [None] stands for the [AssertionError] of a move
    whose square of departure is empty. *)
Definition board_push (b : Board) (m : Move) : option Board :=
  if piece_at_from_square (position b) m then Some (pushed b m) else None.

(** [board.pop()]: [None] stands for the [IndexError] of an empty stack. *)
Definition board_pop (b : Board) : option Board :=
  match stack b with
  | [] => None
  | p :: rest => Some {| position := p; stack := rest |}
  end.

Record Viewer : Type := {
  moves : list Move;
  idx : nat;
  board : Board
}.

(** The replay part of [on_game_select]: [None] stands for the
    [AttributeError] of a text in which [read_game] finds no game. *)
Definition on_game_select (pgn : string) : option Viewer :=
  game_obj ← read_game pgn;
  Some {| moves := mainline_moves game_obj; idx := 0%nat;
          board := board_at (game_board game_obj) |}.

Definition go_next (st : Viewer) : option Viewer :=
  match moves st !! idx st with
  | Some m =>
      b ← board_push (board st) m;
      Some {| moves := moves st; idx := S (idx st); board := b |}
  | None => Some st
  end.

Definition go_prev (st : Viewer) : option Viewer :=
  match idx st with
  | O => Some st
  | S i =>
      b ← board_pop (board st);
      Some {| moves := moves st; idx := i; board := b |}
  end.

(** [while self.idx > 0: self.board.pop(); self.idx -= 1] *)
Fixpoint go_start_loop (i : nat) (b : Board) : option Board :=
  match i with
  | O => Some b
  | S j => b' ← board_pop b; go_start_loop j b'
  end.

Definition go_start (st : Viewer) : option Viewer :=
  b ← go_start_loop (idx st) (board st);
  Some {| moves := moves st; idx := 0%nat; board := b |}.

(** [while self.idx < len(self.moves): push; self.idx += 1], the number of
    turns of the loop bounded by [fuel]. *)
Fixpoint go_end_loop (fuel : nat) (st : Viewer) : option Viewer :=
  match fuel with
  | O => Some st
  | S f =>
      match moves st !! idx st with
      | Some m =>
          b ← board_push (board st) m;
          go_end_loop f {| moves := moves st; idx := S (idx st); board := b |}
      | None => Some st
      end
  end.

(** The loop turns at most once per move. *)
Definition go_end (st : Viewer) : option Viewer :=
  go_end_loop (length (moves st)) st.

(** [for i in range(target_idx): if i < len(self.moves): push] *)
Definition push_upto (ms : list Move) (target_idx : nat) (b : Board)
  : option Board :=
  fold_left
    (fun ob i =>
       b ← ob;
       match ms !! i with
       | Some m => board_push b m
       | None => Some b
       end)
    (seq 0 target_idx) (Some b).

Definition on_slider_change (target_idx : nat) (st : Viewer) : option Viewer :=
  if decide (target_idx <> idx st)
  then b ← push_upto (moves st) target_idx (board_at starting_position);
       Some {| moves := moves st; idx := target_idx; board := b |}
  else Some st.

(** One action of the user on a loaded game; the slider runs from 0 to the
    number of moves. *)
Inductive action : Type :=
  | Next
  | Prev
  | Start
  | End_
  | Slide (target_idx : nat).

Definition act (a : action) (st : Viewer) : option Viewer :=
  match a with
  | Next => go_next st
  | Prev => go_prev st
  | Start => go_start st
  | End_ => go_end st
  | Slide k => on_slider_change (Nat.min k (length (moves st))) st
  end.

(** The actions in turn; [None] as soon as one raises. *)
Fixpoint run (acts : list action) (st : Viewer) : option Viewer :=
  match acts with
  | [] => Some st
  | a :: rest => st' ← act a st; run rest st'
  end.

Definition is_slide (a : action) : bool :=
  match a with
  | Slide _ => true
  | _ => false
  end.

(** Whether [push] accepts the moves [ms] in turn from position [p]. *)
Fixpoint playable (p : Position) (ms : list Move) : bool :=
  match ms with
  | [] => true
  | m :: rest => piece_at_from_square p m && playable (push p m) rest
  end.

(** The board that has played the first [k] moves from position [base]. *)
Definition played (base : Position) (ms : list Move) (k : nat) : Board :=
  fold_left pushed (take k ms) (board_at base).

(** A state of the viewer that shows the first [idx] moves of the game
    played from [base]. *)
Definition shows (base : Position) (ms : list Move) (st : Viewer) : Prop :=
  moves st = ms /\ (idx st <= length ms)%nat
  /\ board st = played base ms (idx st).

End Nav.
End Nav.

(** Rules for the sample library: in the standard starting position the
    ranks 3 to 6 are empty, so a move that starts there finds no piece;
    any other move is accepted. *)
Definition departure_rank (m : string) : ascii :=
  match m with
  | String _ (String r _) => r
  | _ => "0"%char
  end.

Definition sample_squares : @Nav.Squares sample_lib :=
  @Nav.Build_Squares sample_lib
    (fun p m =>
       match p with
       | (fen, []) =>
           if String.eqb fen standard_fen
           then existsb (Ascii.eqb (departure_rank m))
                  ["1"; "2"; "7"; "8"]%char
           else true
       | _ => true
       end).

Definition sample_actions : list Nav.action :=
  [Nav.Next; Nav.Slide 2; Nav.Prev; Nav.Start; Nav.End_; Nav.Slide 1].

(** The viewer after the selection of the game set up by a [FEN] header,
    and after the selection of a game that starts with a pawn on e4. *)
Definition setup_viewer : @Nav.Viewer sample_lib :=
  @Nav.Build_Viewer sample_lib (Chess.mainline_moves setup_game) 0
    (@Nav.board_at sample_lib (Chess.game_board setup_game)).

Definition advanced_pawn_fen : string := "4k3/8/8/8/4P3/8/8/4K3 w - - 0 1".

Definition advanced_pawn_viewer : @Nav.Viewer sample_lib :=
  @Nav.Build_Viewer sample_lib ["e4e5"] 0
    (@Nav.board_at sample_lib (advanced_pawn_fen, [])).

(** ** The settings dialog ([settings.py]) and the start-up script
       ([acco/init_database.py]) *)

Module Settings.

(** [s.replace(old, new)] for a non-empty [old]: the occurrences of [old],
    found from left to right without overlap, give way to [new]. *)
Definition replace (old new s : string) : string :=
  Py.join new (Py.split old s).

Fixpoint map_chars (f : ascii -> ascii) (s : string) : string :=
  match s with
  | EmptyString => EmptyString
  | String c r => String (f c) (map_chars f r)
  end.

(** [s.replace(' ', '_')] *)
Definition underscore_spaces (s : string) : string :=
  map_chars (fun c => if Ascii.eqb c " " then "_"%char else c) s.

(** The database file of a user for the settings dialog
    ([save_settings], [create_new_database]). *)
Definition settings_db_file (username : string) : string :=
  Py.lower username +:+ "_games.db".

(** The database file [GameViewer.load_settings] opens. *)
Definition viewer_db_file (username : string) : string :=
  match username with
  | EmptyString => "acco/resources/default_games.db"
  | String _ _ =>
      "acco/resources/" +:+ underscore_spaces (Py.lower username)
      +:+ "_games.db"
  end.

(** The database file [init_database.py] fills. *)
Definition init_db_file (username : string) : string :=
  "acco/resources/" +:+ username +:+ "_games.db".

(** The user name [set_selected_as_user] reads off a file name. *)
Definition set_selected_as_user (db_filename : string) : string :=
  replace "_games.db" "" db_filename.

(** [re.match(date_pattern, s)] for the pattern of a month from 01 to 12,
    a slash, four digits and the end of the text, which the pattern also
    finds before a last line break. *)
Definition match_date (s : string) : bool :=
  match Datetime.first_alt
          [[Datetime.lit "0"; Datetime.dig 1 9];
           [Datetime.lit "1"; Datetime.dig 0 2]] s with
  | Some (_, s1) =>
      match Datetime.literal "/" s1 with
      | Some s2 =>
          match Datetime.match_seq
                  [Datetime.d_; Datetime.d_; Datetime.d_; Datetime.d_] s2 with
          | Some (_, EmptyString) => true
          | Some (_, String c EmptyString) => Ascii.eqb c Parser.nl
          | _ => false
          end
      | None => false
      end
  | None => false
  end.

(** [int(s)] for a text of decimal digits.  [None] for any other text:
    there [int] raises [ValueError], or reads a sign, blanks or
    underscores, which the pattern of the dates keeps out. *)
Definition int_of_digits (s : string) : option Z :=
  match s with
  | EmptyString => None
  | String _ _ =>
      if string_forall Py.isdecimal s then Some (Datetime.int s) else None
  end.

(** [month, year = map(int, s.split('/'))]: [None] stands for the
    [ValueError] of an unpacking that does not find two parts, or of a part
    that is not a number. *)
Definition parse_date (s : string) : option (Z * Z) :=
  match Py.split "/" s with
  | [a; b] =>
      month ← int_of_digits a;
      year ← int_of_digits b;
      Some (month, year)
  | _ => None
  end.

(** A row of the table the dialog creates, by the columns its [INSERT]
    names besides [url]. *)
Record Row : Type := {
  pgn : string;
  white : string;
  black : string;
  end_time : Z
}.

Definition row_of (g : Parser.GameRecord) : Row :=
  {| pgn := Parser.pgn g; white := Parser.white g;
     black := Parser.black g; end_time := Parser.end_time g |}.

(** [INSERT OR IGNORE] of every game of a month. *)
Definition insert_games (rows : gmap string Row) (games : list Parser.GameRecord)
  : gmap string Row :=
  fold_left
    (fun rows g =>
       match rows !! Parser.url g with
       | Some _ => rows
       | None => <[Parser.url g := row_of g]> rows
       end)
    games rows.

(** The variables of the loop over the months; [announced] lists the
    months the status line has shown. *)
Record loop_state : Type := {
  current_month : Z;
  current_year : Z;
  total_games : nat;
  months_processed : nat;
  announced : list (Z * Z);
  rows : gmap string Row
}.

(** How the loop over the months ends: it is left by its condition, or
    an exception leaves it, with the variables as they then are. *)
Inductive loop_end : Type :=
  | Finished (st : loop_state)
  | Raised (st : loop_state).

Definition announce (st : loop_state) : loop_state :=
  {| current_month := current_month st; current_year := current_year st;
     total_games := total_games st; months_processed := months_processed st;
     announced := announced st ++ [(current_month st, current_year st)];
     rows := rows st |}.

(** The loop over the months, its turns bounded by [fuel]: [None] when the
    fuel runs out. *)
Fixpoint month_loop (fetch : Z -> Z -> Fetch.response) (end_month end_year : Z)
  (fuel : nat) (st : loop_state) : option loop_end :=
  if (current_year st <? end_year)
     || ((current_year st =? end_year) && (current_month st <=? end_month))
  then
    match fuel with
    | O => None
    | S fuel' =>
        let st := announce st in
        match fetch (current_year st) (current_month st) with
        | Fetch.Body raw_pgn =>
            match Parser.parse_pgn_games raw_pgn with
            | Ok games =>
                let '(rows', total') :=
                  match games with
                  | [] => (rows st, total_games st)
                  | _ => (insert_games (rows st) games,
                          (total_games st + length games)%nat)
                  end in
                let month' := current_month st + 1 in
                let '(month', year') :=
                  if 12 <? month' then (1, current_year st + 1)
                  else (month', current_year st) in
                month_loop fetch end_month end_year fuel'
                  {| current_month := month'; current_year := year';
                     total_games := total';
                     months_processed := S (months_processed st);
                     announced := announced st;
                     rows := rows' |}
            | Raise _ => Some (Raised st)
            end
        | _ => Some (Raised st)
        end
    end
  else Some (Finished st).

(** What the status line shows when the function is done. *)
Inductive status : Type :=
  | PleaseEnterUsername
  | StartDateFormat
  | EndDateFormat
  | EndBeforeStart
  | Success (username : string) (total_games : nat)
  | Error.

(** What [create_new_database] leaves: the status, the maximum of the
    progress bar and the variables of the loop when it has run, and the
    rows of the file.  The rows are committed once, after the loop;
    [refreshed] tells whether the refresh of the list of databases that
    follows the commit goes through, it being inside the same [try]. *)
Record outcome : Type := {
  final_status : status;
  progress_maximum : option Z;
  loop_variables : option loop_state;
  file_rows : gmap string Row
}.

Definition rejected (s : status) (rows : gmap string Row) : outcome :=
  {| final_status := s; progress_maximum := None; loop_variables := None;
     file_rows := rows |}.

(** [None] stands for an exception that leaves the function: the
    unpacking of the dates is outside its [try], and so would be a loop
    that does not end. *)
Definition create_new_database (fetch : Z -> Z -> Fetch.response)
  (refreshed : bool)
  (new_username start_date_entry end_date_entry : string)
  (rows : gmap string Row) : option outcome :=
  let username := Py.strip new_username in
  let start_date := Py.strip start_date_entry in
  let end_date := Py.strip end_date_entry in
  match username with
  | EmptyString => Some (rejected PleaseEnterUsername rows)
  | String _ _ =>
      if negb (match_date start_date)
      then Some (rejected StartDateFormat rows)
      else if negb (match_date end_date)
      then Some (rejected EndDateFormat rows)
      else
        '(start_month, start_year) ← parse_date start_date;
        '(end_month, end_year) ← parse_date end_date;
        if (end_year <? start_year)
           || ((end_year =? start_year) && (end_month <? start_month))
        then Some (rejected EndBeforeStart rows)
        else
          let total_months :=
            (end_year - start_year) * 12 + (end_month - start_month + 1) in
          loop ← month_loop fetch end_month end_year (Z.to_nat total_months)
                   {| current_month := start_month;
                      current_year := start_year;
                      total_games := 0; months_processed := 0;
                      announced := []; rows := rows |};
          match loop with
          | Finished st =>
              Some {| final_status :=
                        if refreshed then Success username (total_games st)
                        else Error;
                      progress_maximum := Some total_months;
                      loop_variables := Some st;
                      file_rows := Settings.rows st |}
          | Raised st =>
              Some {| final_status := Error;
                      progress_maximum := Some total_months;
                      loop_variables := Some st;
                      file_rows := rows |}
          end
  end.

(** The month [i] months after month [m] of year [y]. *)
Definition month_after (m y : Z) (i : nat) : Z * Z :=
  ((m - 1 + Z.of_nat i) mod 12 + 1, y + (m - 1 + Z.of_nat i) / 12).

(** The months from month [m] of year [y] on, [n] of them. *)
Definition months_from (m y : Z) (n : nat) : list (Z * Z) :=
  map (month_after m y) (seq 0 n).

(** Whether the download of a month answers with a text. *)
Definition answers (fetch : Z -> Z -> Fetch.response) (p : Z * Z) : bool :=
  match fetch p.2 p.1 with
  | Fetch.Body _ => true
  | _ => false
  end.

(** The months the loop has still to visit. *)
Definition remaining (end_month end_year : Z) (st : loop_state) : Z :=
  (end_year - current_year st) * 12 + (end_month - current_month st + 1).

(** The variables after a turn of the loop that stored [games]. *)
Definition turn (st : loop_state) (games : list Parser.GameRecord)
  : loop_state :=
  {| current_month :=
       if 12 <? current_month st + 1 then 1 else current_month st + 1;
     current_year :=
       if 12 <? current_month st + 1 then current_year st + 1
       else current_year st;
     total_games := (total_games st + length games)%nat;
     months_processed := S (months_processed st);
     announced := announced st ++ [(current_month st, current_year st)];
     rows := insert_games (rows st) games |}.

(** [total_months], the maximum the progress bar is given. *)
Definition total_months (start_month start_year end_month end_year : Z) : Z :=
  (end_year - start_year) * 12 + (end_month - start_month + 1).

(** A download that finds every month empty, and one that fails in every
    January. *)
Definition empty_months (year month : Z) : Fetch.response := Fetch.Body "".

Definition no_january (year month : Z) : Fetch.response :=
  if month =? 1 then Fetch.HTTPError 404 else Fetch.Body "".

Definition initial (start_month start_year : Z) (rows : gmap string Row)
  : loop_state :=
  {| current_month := start_month; current_year := start_year;
     total_games := 0; months_processed := 0; announced := []; rows := rows |}.

End Settings.

(** The calls of [update_eval_progress] for the positions [i] to
    [i + n - 1] of [total]. *)
Definition ticks (total i n : nat) : list (nat * nat) :=
  map (fun j => (j, total)) (seq i n).

(** Two records stored under the same link, the row of [sample_world] and
    slider values out of order. *)
Definition linked_record : Parser.GameRecord :=
  {| Parser.url := "https://www.chess.com/game/live/2";
     Parser.pgn := "1. d4 d5 *"; Parser.end_time := 1704196800;
     Parser.time_control := "180"; Parser.white := "carol";
     Parser.black := "alice" |}.

Definition linked_record_again : Parser.GameRecord :=
  {| Parser.url := "https://www.chess.com/game/live/2";
     Parser.pgn := "1. c4 *"; Parser.end_time := 0;
     Parser.time_control := "60"; Parser.white := "dave";
     Parser.black := "alice" |}.

Definition sample_url : string := "https://www.chess.com/game/live/1".

Definition sample_row : Store.Row :=
  {| Store.pgn := "1. e4 e5 *"; Store.end_time := 1704110400;
     Store.white := "alice"; Store.black := "bob";
     Store.time_control := "600";
     Store.evaluation_data := Some sample_eval |}.

Definition crossed_sliders : Rating.Sliders :=
  {| Rating.elo_start_slider := 4; Rating.elo_end_slider := 2 |}.

(** * Properties *)

(** ** The parser *)

Lemma end_ts_of_ok tags : Parser.end_ts_of tags = Ok (end_ts_value tags).
Proof.
  unfold Parser.end_ts_of, end_ts_value, try_except, rbind.
  destruct (Datetime.strptime _); reflexivity.
Qed.

Lemma parse_block_ok i blk : Parser.parse_block i blk = Ok (record_of i blk).
Proof.
  unfold Parser.parse_block, record_of, restore_event.
  rewrite end_ts_of_ok. reflexivity.
Qed.

Lemma parse_blocks_ok blocks : forall i games,
  Parser.parse_blocks i blocks games
  = Ok (games ++ imap (fun j blk => record_of (i + j) blk) blocks).
Proof.
  induction blocks as [|blk rest IH]; intros i games; simpl.
  - by rewrite app_nil_r.
  - rewrite parse_block_ok. simpl. rewrite IH.
    rewrite <- app_assoc. simpl. rewrite Nat.add_0_r.
    do 3 f_equal. apply imap_ext. intros j x _. simpl. f_equal. lia.
Qed.

Lemma parse_pgn_games_ok raw :
  Parser.parse_pgn_games raw
  = Ok (imap record_of (Py.split Parser.event_sep raw)).
Proof.
  unfold Parser.parse_pgn_games. rewrite parse_blocks_ok. reflexivity.
Qed.

Lemma append_String a (s t : string) : String a s +:+ t = String a (s +:+ t).
Proof. reflexivity. Qed.

Lemma append_empty (t : string) : "" +:+ t = t.
Proof. reflexivity. Qed.

Lemma string_app_assoc (a b c : string) : (a +:+ b) +:+ c = a +:+ b +:+ c.
Proof. induction a; rewrite ?append_String, ?append_empty; congruence. Qed.

Lemma contains_tail sep c s :
  Py.contains sep (String c s) = false -> Py.contains sep s = false.
Proof.
  simpl. intros Hc. apply orb_false_iff in Hc. destruct Hc as [_ Hc].
  destruct s; exact Hc.
Qed.

Lemma contains_head sep s :
  Py.contains sep s = false -> Py.startswith sep s = false.
Proof.
  destruct s; simpl; intros Hc; apply orb_false_iff in Hc; tauto.
Qed.

Lemma split_from_skip sep x : forall rest,
  Py.split_from sep (String.length x) (x +:+ rest) = Py.split_from sep 0 rest.
Proof.
  induction x; intros rest; rewrite ?append_String, ?append_empty; simpl; auto.
Qed.

Ltac eqb_cases H :=
  repeat match type of H with
  | context [Ascii.eqb ?a ?b] =>
      destruct (Ascii.eqb_spec a b); [subst | discriminate H]
  end.

Lemma no_straddle c b rest :
  Py.contains Parser.event_sep (String c b) = false ->
  Py.startswith Parser.event_sep (String c b +:+ Parser.event_sep +:+ rest) = false.
Proof.
  intros Hc. apply contains_head in Hc.
  destruct (Py.startswith _ (_ +:+ _)) eqn:Hs; [|reflexivity].
  exfalso.
  unfold Parser.event_sep in *.
  destruct b as [|c2 [|c3 [|c4 [|c5 [|c6 [|c7 [|c8 b]]]]]]];
    rewrite ?append_String, ?append_empty in Hs;
    cbn [Py.startswith] in Hs; eqb_cases Hs; unfold Parser.nl in *;
    try discriminate; cbn in Hc; discriminate Hc.
Qed.

Lemma split_from_block b : forall rest,
  Py.contains Parser.event_sep b = false ->
  Py.split_from Parser.event_sep 0 (b +:+ Parser.event_sep +:+ rest)
  = (b, Py.split Parser.event_sep rest).
Proof.
  induction b as [|c b IH]; intros rest Hc.
  - rewrite append_empty. unfold Py.split.
    rewrite <- (split_from_skip Parser.event_sep "
[Event" rest).
    reflexivity.
  - pose proof (no_straddle c b rest Hc) as Hs.
    rewrite append_String in *.
    cbn [Py.split_from]. rewrite Hs.
    rewrite (IH rest (contains_tail _ _ _ Hc)). reflexivity.
Qed.

Lemma split_from_last b :
  Py.contains Parser.event_sep b = false ->
  Py.split_from Parser.event_sep 0 b = (b, []).
Proof.
  induction b as [|c b IH]; intros Hc; [reflexivity|].
  cbn [Py.split_from]. rewrite (contains_head _ _ Hc).
  rewrite (IH (contains_tail _ _ _ Hc)). reflexivity.
Qed.

Lemma startswith_event b :
  Py.startswith "[Event" b = true -> b = "[Event" +:+ after_event b.
Proof.
  intros Hs.
  destruct b as [|c1 [|c2 [|c3 [|c4 [|c5 [|c6 b]]]]]];
    cbn [Py.startswith] in Hs; eqb_cases Hs; try discriminate Hs.
  reflexivity.
Qed.

Lemma contains_after_event b :
  Py.contains Parser.event_sep b = false ->
  Py.contains Parser.event_sep (after_event b) = false.
Proof.
  intros Hc. unfold after_event.
  do 6 (destruct b as [|? b]; [exact Hc|apply contains_tail in Hc]).
  exact Hc.
Qed.

Lemma join_cons_append sep p r bs :
  Py.join sep ((p +:+ r) :: bs) = p +:+ Py.join sep (r :: bs).
Proof.
  destruct bs; cbn [Py.join]; [reflexivity|].
  by rewrite string_app_assoc.
Qed.

Lemma split_join_blocks bs : forall b0,
  Py.contains Parser.event_sep b0 = false ->
  Forall (fun b => Py.contains Parser.event_sep b = false) bs ->
  Forall (fun b => Py.startswith "[Event" b = true) bs ->
  Py.split Parser.event_sep (Py.join blank_line (b0 :: bs))
  = b0 :: map after_event bs.
Proof.
  induction bs as [|b1 bs IH]; intros b0 H0 Hc Hs.
  - cbn [Py.join]. unfold Py.split. by rewrite split_from_last.
  - inversion Hc as [|? ? Hc1 Hcs]; subst.
    inversion Hs as [|? ? Hs1 Hss]; subst.
    change (Py.join blank_line (b0 :: b1 :: bs))
      with (b0 +:+ blank_line +:+ Py.join blank_line (b1 :: bs)).
    rewrite (startswith_event b1 Hs1) at 1.
    rewrite join_cons_append.
    change (b0 +:+ blank_line +:+ "[Event" +:+ ?x)
      with (b0 +:+ Parser.event_sep +:+ x).
    unfold Py.split at 1. rewrite split_from_block by exact H0.
    rewrite IH; auto using contains_after_event.
Qed.

Lemma imap_restore_after_event bs : forall i,
  Forall (fun b => Py.startswith "[Event" b = true) bs ->
  imap (fun j blk => Py.strip (restore_event (S i + j) blk)) (map after_event bs)
  = map Py.strip bs.
Proof.
  induction bs as [|b bs IH]; intros i Hs; [reflexivity|].
  inversion Hs as [|? ? Hs1 Hss]; subst.
  cbn [map imap]. f_equal.
  - unfold restore_event. simpl. by rewrite <- startswith_event.
  - rewrite <- (IH (S i) Hss). apply imap_ext. intros j x _. simpl.
    do 2 f_equal; lia.
Qed.

Lemma map_pgn_imap_record l : forall i,
  map Parser.pgn (imap (fun j blk => record_of (i + j) blk) l)
  = imap (fun j blk => Py.strip (restore_event (i + j) blk)) l.
Proof.
  intros i. change (map Parser.pgn) with (fmap (M:=list) Parser.pgn).
  rewrite fmap_imap. apply imap_ext. reflexivity.
Qed.

(** The round trip of well-formed blocks.  For a text made of k
    well-formed game blocks with a blank line between them,
    [parse_pgn_games] returns exactly k records in source order, and the
    [pgn] of each record is the text of its block, trimmed. *)
Lemma parse_round_trip (blocks : list string) :
  well_formed_blocks blocks ->
  exists games,
    Parser.parse_pgn_games (Py.join blank_line blocks) = Ok games
    /\ length games = length blocks
    /\ map Parser.pgn games = map Py.strip blocks.
Proof.
  intros (Hne & Hc & Hs).
  destruct blocks as [|b0 bs]; [done|].
  inversion Hc as [|? ? H0 Hcs]; subst. cbn [tail] in Hs.
  eexists. split; [apply parse_pgn_games_ok|].
  rewrite split_join_blocks by assumption.
  split.
  - rewrite length_imap. simpl. by rewrite length_map.
  - rewrite (map_pgn_imap_record _ 0). cbn [imap map]. f_equal.
    apply (imap_restore_after_event bs 0 Hs).
Qed.

(** Time stamps of the model of [strptime]: one-digit fields and a text
    that is no date. *)
Example strptime_short_fields :
  Datetime.strptime "2024.1.1 1:2:3"
  = Ok {| Datetime.year := 2024; Datetime.month := 1; Datetime.day := 1;
          Datetime.hour := 1; Datetime.minute := 2; Datetime.second := 3 |}.
Proof. reflexivity. Qed.

Example timestamp_before_epoch :
  rbind (Datetime.strptime "1969.12.31 23:59:59")
        (fun dt => Ok (Datetime.timestamp dt)) = Ok (-1).
Proof. reflexivity. Qed.

Example strptime_no_such_day :
  Datetime.strptime "2023.02.29 12:00:00" = Raise ValueError.
Proof. reflexivity. Qed.

(** The caller that stores the games answers a blank text itself, before
    the parser sees it. *)
Lemma blank_text_stores_nothing raw db :
  Py.strip raw = "" -> Store.save_to_db raw db = (db, 0%nat).
Proof. intros Hb. unfold Store.save_to_db. by rewrite Hb. Qed.

(** Two games separated by a blank line. *)
Lemma parse_round_trip_two_games :
  well_formed_blocks two_linkless_games
  /\ exists games,
       Parser.parse_pgn_games (Py.join blank_line two_linkless_games) = Ok games
       /\ length games = length two_linkless_games
       /\ map Parser.pgn games = map Py.strip two_linkless_games.
Proof.
  assert (Hwf : well_formed_blocks two_linkless_games).
  { split; [discriminate|]. split; repeat constructor. }
  split; [exact Hwf|]. exact (parse_round_trip two_linkless_games Hwf).
Qed.

Lemma date_of_first_nonempty tags :
  Parser.date_of tags
  = first_nonempty [tags !! "EndDate"; tags !! "UTCDate"; tags !! "Date"].
Proof.
  unfold Parser.date_of, Py.get_or, Py.get. cbn [first_nonempty].
  destruct (tags !! "EndDate") as [[|]|]; try reflexivity;
  destruct (tags !! "UTCDate") as [[|]|]; try reflexivity;
  destruct (tags !! "Date") as [[|]|]; reflexivity.
Qed.

Lemma time_str_of_first_nonempty tags :
  Parser.time_str_of tags
  = first_nonempty [tags !! "EndTime"; tags !! "UTCTime"; tags !! "StartTime"].
Proof.
  unfold Parser.time_str_of, Py.get_or, Py.get. cbn [first_nonempty].
  destruct (tags !! "EndTime") as [[|]|]; try reflexivity;
  destruct (tags !! "UTCTime") as [[|]|]; try reflexivity;
  destruct (tags !! "StartTime") as [[|]|]; reflexivity.
Qed.

Lemma Forall_imap_record (P : Parser.GameRecord -> Prop) l :
  (forall i blk, P (record_of i blk)) ->
  Forall P (imap record_of l).
Proof.
  intros HP. apply Forall_forall. intros g Hg.
  apply elem_of_lookup_imap in Hg.
  destruct Hg as (i & blk & -> & _). apply HP.
Qed.

(** C5, corrected statement.  Every block yields a record.  Its [end_time] is read
    from a date, the first present and non-empty of the tags EndDate,
    UTCDate and Date, and from a time chosen on its own as the first
    present and non-empty of EndTime, UTCTime and StartTime; the two are
    joined by a space and parsed as year.month.day hour:minute:second in
    UTC, and [end_time] is 0 when that fails. *)
Theorem C5_end_time_fallback (raw : string) :
  exists games,
    Parser.parse_pgn_games raw = Ok games
    /\ length games = length (Py.split Parser.event_sep raw)
    /\ Forall (fun g =>
         let tags := Parser.tags_of (Parser.pgn g) in
         let date := first_nonempty
                       [tags !! "EndDate"; tags !! "UTCDate"; tags !! "Date"] in
         let time_str := first_nonempty
                       [tags !! "EndTime"; tags !! "UTCTime"; tags !! "StartTime"] in
         Parser.end_time g
         = match Datetime.strptime (date +:+ " " +:+ time_str) with
           | Ok dt => Datetime.timestamp dt
           | Raise _ => 0
           end) games.
Proof.
  eexists. split; [apply parse_pgn_games_ok|]. split; [apply length_imap|].
  apply Forall_imap_record. intros i blk. cbn zeta.
  rewrite <- date_of_first_nonempty, <- time_str_of_first_nonempty.
  reflexivity.
Qed.

(** C5, counterexample.  With EndDate, UTCDate and UTCTime but no EndTime,
    the parser joins EndDate with UTCTime; reading the tags pair by pair
    gives the time stamp of UTCDate and UTCTime, a year earlier, and the
    missing EndTime does not make the time stamp 0 either. *)
Lemma C5_mixed_tags_not_by_pairs :
  match Parser.parse_pgn_games mixed_tags_pgn with
  | Ok [g] =>
      Parser.end_time g = 1704110400
      /\ spec_end_time_by_pairs (Parser.tags_of (Parser.pgn g)) = 1672574400
      /\ Parser.end_time g <> spec_end_time_by_pairs (Parser.tags_of (Parser.pgn g))
      /\ Parser.end_time g <> 0
  | _ => False
  end.
Proof. vm_compute. repeat split; discriminate. Qed.

(** C9.  [parse_pgn_games] returns on every text, never raises, and
    returns one record per block of the split on a blank line followed by
    the Event tag opening; a time stamp that does not parse gives
    [end_time] 0; the empty text gives the single record whose fields are
    all empty and whose [end_time] is 0. *)
Theorem C9_parse_total (raw : string) :
  exists games,
    Parser.parse_pgn_games raw = Ok games
    /\ length games = length (Py.split Parser.event_sep raw)
    /\ Forall (fun g =>
         let tags := Parser.tags_of (Parser.pgn g) in
         match Datetime.strptime
                 (Parser.date_of tags +:+ " " +:+ Parser.time_str_of tags) with
         | Ok dt => Parser.end_time g = Datetime.timestamp dt
         | Raise _ => Parser.end_time g = 0
         end) games
    /\ Parser.parse_pgn_games "" = Ok [empty_record].
Proof.
  eexists. split; [apply parse_pgn_games_ok|]. split; [apply length_imap|].
  split; [|vm_compute; reflexivity].
  apply Forall_imap_record. intros i blk. cbn zeta.
  change (Parser.end_time (record_of i blk))
    with (end_ts_value (Parser.tags_of (Parser.pgn (record_of i blk)))).
  unfold end_ts_value. destruct (Datetime.strptime _); reflexivity.
Qed.

(** The scenario of the specification: one record, players alice and bob,
    the time stamp of 2024-01-01 12:00:00 UTC, the whole text as [pgn]. *)
Example scenario_parses :
  Parser.parse_pgn_games scenario_pgn
  = Ok [{| Parser.url := ""; Parser.pgn := scenario_pgn;
           Parser.end_time := 1704110400; Parser.time_control := "";
           Parser.white := "alice"; Parser.black := "bob" |}].
Proof. vm_compute. reflexivity. Qed.

(** ** The store *)

Lemma insert_or_ignore_keeps db g k r :
  db !! k = Some r -> (Store.insert_or_ignore db g).1 !! k = Some r.
Proof.
  intros Hk. unfold Store.insert_or_ignore.
  destruct (db !! Parser.url g) eqn:Hg; simpl; [exact Hk|].
  rewrite lookup_insert_ne; [exact Hk|congruence].
Qed.

Lemma insert_or_ignore_other db g k :
  Parser.url g <> k -> (Store.insert_or_ignore db g).1 !! k = db !! k.
Proof.
  intros Hne. unfold Store.insert_or_ignore.
  destruct (db !! Parser.url g); simpl; [reflexivity|].
  by rewrite lookup_insert_ne.
Qed.

Lemma insert_or_ignore_present db g :
  is_Some ((Store.insert_or_ignore db g).1 !! Parser.url g).
Proof.
  unfold Store.insert_or_ignore.
  destruct (db !! Parser.url g) eqn:Hg; simpl; [by rewrite Hg|].
  rewrite lookup_insert_eq. eauto.
Qed.

Lemma upsert_loop_keeps games : forall db n k r,
  db !! k = Some r -> (Store.upsert_loop db games n).1 !! k = Some r.
Proof.
  induction games as [|g rest IH]; intros db n k r Hk; simpl; [exact Hk|].
  destruct (Store.insert_or_ignore db g) as [db' rc] eqn:Hi.
  apply IH. change db' with (db', rc).1. rewrite <- Hi.
  by apply insert_or_ignore_keeps.
Qed.

Lemma upsert_loop_other games : forall db n k,
  Forall (fun h => Parser.url h <> k) games ->
  (Store.upsert_loop db games n).1 !! k = db !! k.
Proof.
  induction games as [|g rest IH]; intros db n k Hall; simpl; [reflexivity|].
  inversion Hall as [|? ? Hg Hrest]; subst.
  destruct (Store.insert_or_ignore db g) as [db' rc] eqn:Hi.
  rewrite IH by exact Hrest. change db' with (db', rc).1. rewrite <- Hi.
  by apply insert_or_ignore_other.
Qed.

Lemma upsert_loop_present games : forall db n g,
  g ∈ games -> is_Some ((Store.upsert_loop db games n).1 !! Parser.url g).
Proof.
  induction games as [|h rest IH]; intros db n g Hin; [by apply elem_of_nil in Hin|].
  simpl. destruct (Store.insert_or_ignore db h) as [db' rc] eqn:Hi.
  apply elem_of_cons in Hin as [->|Hin]; [|by apply IH].
  pose proof (insert_or_ignore_present db h) as [r Hr].
  rewrite Hi in Hr. simpl in Hr.
  rewrite (upsert_loop_keeps rest db' _ _ r Hr). eauto.
Qed.

Lemma upsert_loop_noop games : forall db n,
  Forall (fun g => is_Some (db !! Parser.url g)) games ->
  Store.upsert_loop db games n = (db, n).
Proof.
  induction games as [|g rest IH]; intros db n Hall; simpl; [reflexivity|].
  inversion Hall as [|? ? [r Hg] Hrest]; subst.
  unfold Store.insert_or_ignore. rewrite Hg. by apply IH.
Qed.

Lemma upsert_loop_app a : forall b db n,
  Store.upsert_loop db (a ++ b) n
  = Store.upsert_loop (Store.upsert_loop db a n).1 b (Store.upsert_loop db a n).2.
Proof.
  induction a as [|g a IH]; intros b db n; simpl; [reflexivity|].
  destruct (Store.insert_or_ignore db g) as [db' rc]. apply IH.
Qed.

Lemma update_evaluation_is_Some db url data k :
  is_Some (db !! k) -> is_Some (Store.update_evaluation db url data !! k).
Proof.
  intros [r Hr]. unfold Store.update_evaluation.
  rewrite lookup_alter. case_decide; subst; rewrite Hr; simpl; eauto.
Qed.

Lemma apply_updates_is_Some ws : forall db k,
  is_Some (db !! k) -> is_Some (Store.apply_updates db ws !! k).
Proof.
  induction ws as [|w ws IH]; intros db k Hk; simpl; [exact Hk|].
  apply IH. by apply update_evaluation_is_Some.
Qed.

(** C2.  After a first [upsert] of a record set, and whatever evaluations
    were written to the table since, a second [upsert] of the same records
    leaves the whole table as it is, evaluations included, and reports no
    new row. *)
Theorem C2_upsert_idempotent (db : gmap string Store.Row)
  (games : list Parser.GameRecord) (ws : list (string * Store.EvalData)) :
  Store.upsert (Store.apply_updates (Store.upsert db games).1 ws) games
  = (Store.apply_updates (Store.upsert db games).1 ws, 0%nat).
Proof.
  unfold Store.upsert. apply upsert_loop_noop.
  apply Forall_forall. intros g Hg.
  apply apply_updates_is_Some. by apply upsert_loop_present.
Qed.

(** ** Move replay *)

Section ReplayFacts.
Context `{Chess.Lib}.
Import Chess Replay.

Lemma push_upto_take (ms : list Move) (k : nat) (b : Position) :
  push_upto ms k b = fold_left push (take k ms) b.
Proof.
  unfold push_upto. induction k as [|k IH].
  - reflexivity.
  - rewrite seq_S, fold_left_app, IH. simpl.
    destruct (ms !! k) as [m|] eqn:Hk.
    + rewrite (take_S_r _ _ _ Hk), fold_left_app. reflexivity.
    + apply lookup_ge_None in Hk.
      rewrite !take_ge by lia. reflexivity.
Qed.

Lemma iter_go_next (k : nat) : forall st : Viewer,
  (idx st + k <= length (moves st))%nat ->
  Nat.iter k go_next st
  = {| moves := moves st; idx := (idx st + k)%nat;
       board := fold_left push (take k (drop (idx st) (moves st))) (board st) |}.
Proof.
  induction k as [|k IH]; intros st Hk.
  - simpl. rewrite Nat.add_0_r. by destruct st.
  - rewrite Nat.iter_succ, IH by lia. unfold go_next. cbn [moves idx board].
    destruct (lookup_lt_is_Some_2 (moves st) (idx st + k)%nat) as [m Hm]; [lia|].
    rewrite Hm. f_equal; [lia|].
    assert (Hd : drop (idx st) (moves st) !! k = Some m)
      by (by rewrite lookup_drop).
    rewrite (take_S_r _ _ _ Hd), fold_left_app. reflexivity.
Qed.

Lemma next_board (g : Game) (k : nat) :
  (k <= length (mainline_moves g))%nat ->
  Nat.iter k go_next (on_game_select g)
  = {| moves := mainline_moves g; idx := k;
       board := fold_left push (take k (mainline_moves g)) (game_board g) |}.
Proof.
  intros Hk. rewrite iter_go_next by (simpl; lia). reflexivity.
Qed.

Lemma jump_board (k : nat) (st : Viewer) :
  k <> idx st ->
  board (on_slider_change k st)
  = fold_left push (take k (moves st)) starting_position.
Proof.
  intros Hk. unfold on_slider_change. rewrite decide_True by exact Hk.
  apply push_upto_take.
Qed.

(** Without a set-up position the jump and the steps agree, from any
    index reached by stepping. *)
Lemma replay_consistent_from_standard_start (g : Game) (j k : nat) :
  setup g = None ->
  (j <= length (mainline_moves g))%nat ->
  (k <= length (mainline_moves g))%nat ->
  board (on_slider_change k (Nat.iter j go_next (on_game_select g)))
  = board (Nat.iter k go_next (on_game_select g)).
Proof.
  intros Hs Hj Hk. rewrite !next_board by assumption.
  unfold on_slider_change. cbn [idx moves board].
  destruct (decide (k <> j)) as [Hne|Heq].
  - cbn [board]. rewrite push_upto_take. unfold game_board. rewrite Hs.
    reflexivity.
  - by destruct (decide (k = j)) as [->|].
Qed.

(** C3, on a game with a set-up position.  For a game whose FEN header sets
    up position [p], a jump to [k] from another index leaves the standard
    starting position with the first [k] moves pushed, while [k] steps of
    [go_next] from the selection leave [p] with those moves pushed. *)
Theorem C3_jump_restarts_from_standard_position (g : Game) (p : Position)
  (j k : nat) :
  setup g = Some p ->
  (j <= length (mainline_moves g))%nat ->
  (k <= length (mainline_moves g))%nat ->
  k <> j ->
  board (on_slider_change k (Nat.iter j go_next (on_game_select g)))
  = fold_left push (take k (mainline_moves g)) starting_position
  /\ board (Nat.iter k go_next (on_game_select g))
     = fold_left push (take k (mainline_moves g)) p.
Proof.
  intros Hs Hj Hk Hne. rewrite !next_board by assumption. split.
  - rewrite jump_board by (simpl; exact Hne). reflexivity.
  - cbn [board]. unfold game_board. rewrite Hs. reflexivity.
Qed.

End ReplayFacts.

(** C3, witness: a game set up from a king and pawn ending. *)
Lemma C3_jump_restarts_witness :
  Replay.board (H := sample_lib)
    (Replay.on_slider_change 1 (Nat.iter 2 Replay.go_next (Replay.on_game_select setup_game)))
  = (standard_fen, ["e2e4"])
  /\ Replay.board (H := sample_lib)
       (Nat.iter 1 Replay.go_next (Replay.on_game_select setup_game))
     = (setup_fen, ["e2e4"]).
Proof.
  exact (@C3_jump_restarts_from_standard_position sample_lib setup_game
           (setup_fen, []) 2%nat 1%nat eq_refl
           ltac:(simpl; lia) ltac:(simpl; lia) ltac:(lia)).
Defined.

(** On that game the board after the jump is not the board after the
    step. *)
Lemma C3_setup_game_diverges :
  Replay.board (H := sample_lib)
    (Replay.on_slider_change 1 (Nat.iter 2 Replay.go_next (Replay.on_game_select setup_game)))
  <> Replay.board (H := sample_lib)
       (Nat.iter 1 Replay.go_next (Replay.on_game_select setup_game)).
Proof. vm_compute. discriminate. Qed.

(** ** The evaluation pipeline *)

Section EvaluationFacts.
Context `{Chess.Engine}.
Import Chess Evaluation.

Lemma untouched_refl w : untouched w w.
Proof. by repeat split. Qed.

Lemma untouched_trans w1 w2 w3 :
  untouched w1 w2 -> untouched w2 w3 -> untouched w1 w3.
Proof. unfold untouched. intros (?&?&?) (?&?&?). repeat split; congruence. Qed.

Lemma length_boards_from ms : forall b, length (boards_from b ms) = length ms.
Proof. induction ms; intros b; simpl; auto. Qed.

Lemma length_boards g : length (boards g) = S (plies g).
Proof. unfold boards, plies. simpl. by rewrite length_boards_from. Qed.

Lemma ask_all_length bs depth : forall n infos,
  ask_all n bs depth = Ok infos -> length infos = length bs.
Proof.
  induction bs as [|b bs IH]; intros n infos; simpl.
  - by intros [= <-].
  - destruct (analyse n b depth); simpl; [|discriminate].
    destruct (ask_all (S n) bs depth) eqn:Hr; simpl; [|discriminate].
    intros [= <-]. simpl. f_equal. eauto.
Qed.

Lemma ask_all_raises bs depth : forall n i b e,
  bs !! i = Some b ->
  analyse (n + i) b depth = Raise e ->
  exists e', ask_all n bs depth = Raise e'.
Proof.
  induction bs as [|b0 bs IH]; intros n i b e Hi He; [done|].
  simpl. destruct i as [|i]; simpl in Hi.
  - injection Hi as ->. rewrite Nat.add_0_r in He. rewrite He. simpl. eauto.
  - destruct (analyse n b0 depth); simpl; [|eauto].
    destruct (IH (S n) i b e Hi) as [e' He'].
    { by replace (S n + i)%nat with (n + S i)%nat by lia. }
    rewrite He'. simpl. eauto.
Qed.

Lemma ask_all_answers bs depth : forall n,
  (forall i b, bs !! i = Some b -> exists s, analyse (n + i) b depth = Ok s) ->
  exists infos, ask_all n bs depth = Ok infos.
Proof.
  induction bs as [|b0 bs IH]; intros n Hall; simpl; [eauto|].
  destruct (Hall 0%nat b0 eq_refl) as [s Hs]. rewrite Nat.add_0_r in Hs.
  rewrite Hs. simpl.
  destruct (IH (S n)) as [infos Hi].
  { intros i b Hb. destruct (Hall (S i) b Hb) as [s' Hs'].
    exists s'. by replace (S n + i)%nat with (n + S i)%nat by lia. }
  rewrite Hi. simpl. eauto.
Qed.

Lemma scores_loop_run ms : forall color depth total i board scores mates w,
  exists w',
    scores_loop color depth total i board ms scores mates w
    = (match ask_all (engine_calls w) (boards_from board ms) depth with
       | Ok infos =>
           Ok (scores ++ scores_of color infos, mates ++ mates_of color infos)
       | Raise e => Raise e
       end, w')
    /\ untouched w w'
    /\ (forall infos,
          ask_all (engine_calls w) (boards_from board ms) depth = Ok infos ->
          engine_calls w' = (engine_calls w + length ms)%nat).
Proof.
  induction ms as [|m ms IH]; intros color depth total i board scores mates w.
  - exists w. simpl. unfold ret, scores_of, mates_of. simpl.
    rewrite !app_nil_r, Nat.add_0_r. auto using untouched_refl.
  - cbn [scores_loop boards_from ask_all]. unfold bind at 1.
    unfold engine_analyse at 1.
    destruct (analyse (engine_calls w) (push board m) depth) as [info|e] eqn:Ha;
      cbn [rbind].
    + destruct (extract (pov info color)) as [mate sc] eqn:Hx.
      unfold bind at 1. unfold notify_progress at 1.
      match goal with
      | |- context [scores_loop _ _ _ _ _ _ _ _ ?w1] =>
          destruct (IH color depth total (S i) (push board m)
                      (scores ++ [sc]) (mates ++ [mate]) w1)
            as (w' & Hrun & Hun & Hcalls)
      end.
      exists w'. rewrite Hrun. cbn [engine_calls] in Hcalls |- *.
      split; [|split].
      * destruct (ask_all _ _ _) as [infos|e]; cbn [rbind]; [|reflexivity].
        unfold scores_of, mates_of. cbn [map]. rewrite Hx. cbn [fst snd].
        by rewrite <- !app_assoc.
      * exact Hun.
      * intros infos Hi.
        destruct (ask_all _ _ _) as [infos'|e] eqn:Hr; [|discriminate Hi].
        rewrite (Hcalls infos' eq_refl). simpl. lia.
    + eexists. split; [reflexivity|]. split; [by repeat split|].
      intros infos [=].
Qed.

Lemma wdl_loop_run ms : forall color depth board probs w,
  exists w',
    wdl_loop color depth board ms probs w
    = (match ask_all (engine_calls w) (boards_from board ms) depth with
       | Ok infos => Ok (probs ++ wdl_of color infos)
       | Raise e => Raise e
       end, w')
    /\ untouched w w'.
Proof.
  induction ms as [|m ms IH]; intros color depth board probs w.
  - exists w. simpl. unfold ret, wdl_of. simpl.
    rewrite app_nil_r. auto using untouched_refl.
  - cbn [wdl_loop boards_from ask_all]. unfold bind at 1.
    unfold engine_analyse at 1.
    destruct (analyse (engine_calls w) (push board m) depth) as [info|e] eqn:Ha;
      cbn [rbind].
    + match goal with
      | |- context [wdl_loop _ _ _ _ ?p ?w1] =>
          destruct (IH color depth (push board m) p w1) as (w' & Hrun & Hun)
      end.
      exists w'. rewrite Hrun. cbn [engine_calls]. split; [|exact Hun].
      destruct (ask_all _ _ _) as [infos|e]; cbn [rbind]; [|reflexivity].
      unfold wdl_of. cbn [map]. by rewrite <- app_assoc.
    + eexists. split; [reflexivity|]. by repeat split.
Qed.

Variable current_user : string.

Lemma calculate_stockfish_scores_run game depth w :
  exists w',
    calculate_stockfish_scores current_user game depth w
    = (match ask_all (engine_calls w) (boards game) depth with
       | Ok infos =>
           Ok (scores_of (pov_color current_user game) infos,
               mates_of (pov_color current_user game) infos)
       | Raise e => Raise e
       end, w')
    /\ untouched w w'
    /\ (forall infos,
          ask_all (engine_calls w) (boards game) depth = Ok infos ->
          engine_calls w' = (engine_calls w + S (plies game))%nat).
Proof.
  unfold calculate_stockfish_scores, boards. cbn [ask_all].
  unfold bind at 1. unfold engine_analyse at 1.
  destruct (analyse (engine_calls w) (game_board game) depth) as [info|e] eqn:Ha;
    cbn [rbind].
  - destruct (extract (pov info (pov_color current_user game))) as [mate sc] eqn:Hx.
    unfold bind at 1. unfold notify_progress at 1.
    match goal with
    | |- context [scores_loop ?c ?d ?t ?i ?b ?ms ?s ?m ?w1] =>
        destruct (scores_loop_run ms c d t i b s m w1)
          as (w' & Hrun & Hun & Hcalls)
    end.
    exists w'. rewrite Hrun. cbn [engine_calls] in Hcalls |- *.
    split; [|split].
    + destruct (ask_all _ _ _) as [infos|e]; cbn [rbind]; [|reflexivity].
      unfold scores_of, mates_of. cbn [map]. rewrite Hx. reflexivity.
    + exact Hun.
    + intros infos Hi.
      destruct (ask_all _ _ _) as [infos'|e] eqn:Hr; [|discriminate Hi].
      rewrite (Hcalls infos' eq_refl). unfold plies. lia.
  - eexists. split; [reflexivity|]. split; [by repeat split|].
    intros infos [=].
Qed.

Lemma calculate_wdl_probabilities_run game depth w :
  exists w',
    calculate_wdl_probabilities current_user game depth w
    = (match ask_all (engine_calls w) (boards game) depth with
       | Ok infos => Ok (wdl_of (pov_color current_user game) infos)
       | Raise e => Raise e
       end, w')
    /\ untouched w w'.
Proof.
  unfold calculate_wdl_probabilities, boards. cbn [ask_all].
  unfold bind at 1. unfold engine_analyse at 1.
  destruct (analyse (engine_calls w) (game_board game) depth) as [info|e] eqn:Ha;
    cbn [rbind].
  - match goal with
    | |- context [wdl_loop ?c ?d ?b ?ms ?p ?w1] =>
        destruct (wdl_loop_run ms c d b p w1) as (w' & Hrun & Hun)
    end.
    exists w'. rewrite Hrun. cbn [engine_calls]. split; [|exact Hun].
    destruct (ask_all _ _ _) as [infos|e]; cbn [rbind]; reflexivity.
  - eexists. split; [reflexivity|]. by repeat split.
Qed.

Lemma run_unfold url pgn depth w game :
  read_game pgn = Some game ->
  run_evaluation_analysis current_user url pgn depth w
  = match calculate_stockfish_scores current_user game depth w with
    | (Ok (scores, is_mate), w1) =>
        match calculate_wdl_probabilities current_user game depth w1 with
        | (Ok wdl_probs, w2) =>
            (Ok tt,
             {| engine_calls := engine_calls w2;
                db := if db_writable w2
                      then Store.update_evaluation (db w2) url
                             {| Store.scores := scores;
                                Store.is_mate := is_mate;
                                Store.wdl_probs := wdl_probs;
                                Store.depth := depth |}
                      else db w2;
                db_writable := db_writable w2;
                progress := progress w2;
                eval_history := Some (scores, is_mate);
                wdl_history := Some wdl_probs |})
        | (Raise e, w2) => (Raise e, w2)
        end
    | (Raise e, w1) => (Raise e, w1)
    end.
Proof.
  intros Hg. unfold run_evaluation_analysis, load_game. rewrite Hg.
  unfold bind, ret.
  destruct (calculate_stockfish_scores current_user game depth w)
    as [[[scores is_mate]|e] w1]; [|reflexivity].
  destruct (calculate_wdl_probabilities current_user game depth w1)
    as [[wdl_probs|e] w2]; reflexivity.
Qed.

Lemma ask_all_lookup bs depth : forall n infos i b,
  ask_all n bs depth = Ok infos ->
  bs !! i = Some b ->
  exists info, analyse (n + i) b depth = Ok info /\ infos !! i = Some info.
Proof.
  induction bs as [|b0 bs IH]; intros n infos i b Hask Hb; [done|].
  cbn [ask_all] in Hask.
  destruct (analyse n b0 depth) as [s0|e] eqn:Ha; [|discriminate Hask].
  cbn [rbind] in Hask.
  destruct (ask_all (S n) bs depth) as [l|e] eqn:Hl; [|discriminate Hask].
  cbn [rbind] in Hask. injection Hask as <-.
  destruct i as [|i].
  - injection Hb as <-. exists s0. by rewrite Nat.add_0_r.
  - destruct (IH (S n) l i b Hl Hb) as (info & Hi & Hli).
    exists info. split; [|exact Hli].
    by replace (n + S i)%nat with (S n + i)%nat by lia.
Qed.

(** The two passes leave the state of the database file alone. *)
Lemma scores_loop_writable ms : forall color depth total i board scores mates w,
  db_writable (scores_loop color depth total i board ms scores mates w).2
  = db_writable w.
Proof.
  induction ms as [|m ms IH]; intros color depth total i board scores mates w;
    [reflexivity|].
  cbn [scores_loop]. unfold bind at 1. unfold engine_analyse at 1.
  destruct (analyse (engine_calls w) (push board m) depth) as [info|e];
    [|reflexivity].
  destruct (extract (pov info color)) as [mate sc].
  unfold bind at 1. unfold notify_progress at 1. by rewrite IH.
Qed.

Lemma wdl_loop_writable ms : forall color depth board probs w,
  db_writable (wdl_loop color depth board ms probs w).2 = db_writable w.
Proof.
  induction ms as [|m ms IH]; intros color depth board probs w; [reflexivity|].
  cbn [wdl_loop]. unfold bind at 1. unfold engine_analyse at 1.
  destruct (analyse (engine_calls w) (push board m) depth) as [info|e];
    [|reflexivity].
  by rewrite IH.
Qed.

Lemma calculate_stockfish_scores_writable game depth w :
  db_writable (calculate_stockfish_scores current_user game depth w).2
  = db_writable w.
Proof.
  unfold calculate_stockfish_scores. unfold bind at 1.
  unfold engine_analyse at 1.
  destruct (analyse (engine_calls w) (game_board game) depth) as [info|e];
    [|reflexivity].
  destruct (extract (pov info (pov_color current_user game))) as [mate sc].
  unfold bind at 1. unfold notify_progress at 1.
  by rewrite scores_loop_writable.
Qed.

Lemma calculate_wdl_probabilities_writable game depth w :
  db_writable (calculate_wdl_probabilities current_user game depth w).2
  = db_writable w.
Proof.
  unfold calculate_wdl_probabilities. unfold bind at 1.
  unfold engine_analyse at 1.
  destruct (analyse (engine_calls w) (game_board game) depth) as [info|e];
    [|reflexivity].
  by rewrite wdl_loop_writable.
Qed.

(** The outcome of a run, by the answers of the engine. *)
Lemma run_outcome url pgn depth w :
  match read_game pgn with
  | None =>
      run_evaluation_analysis current_user url pgn depth w
      = (Raise AttributeError, w)
  | Some game =>
      let color := pov_color current_user game in
      match ask_all (engine_calls w) (boards game) depth with
      | Raise e =>
          exists w',
            run_evaluation_analysis current_user url pgn depth w = (Raise e, w')
            /\ untouched w w'
      | Ok infos1 =>
          match ask_all (engine_calls w + S (plies game)) (boards game) depth with
          | Raise e =>
              exists w',
                run_evaluation_analysis current_user url pgn depth w
                = (Raise e, w')
                /\ untouched w w'
          | Ok infos2 =>
              exists w',
                run_evaluation_analysis current_user url pgn depth w
                = (Ok tt, w')
                /\ db w'
                   = (if db_writable w
                      then Store.update_evaluation (db w) url
                             {| Store.scores := scores_of color infos1;
                                Store.is_mate := mates_of color infos1;
                                Store.wdl_probs := wdl_of color infos2;
                                Store.depth := depth |}
                      else db w)
                /\ eval_history w'
                   = Some (scores_of color infos1, mates_of color infos1)
                /\ wdl_history w' = Some (wdl_of color infos2)
          end
      end
  end.
Proof.
  destruct (read_game pgn) as [game|] eqn:Hg.
  2:{ unfold run_evaluation_analysis, load_game. by rewrite Hg. }
  cbn zeta. rewrite (run_unfold url pgn depth w game Hg).
  pose proof (calculate_stockfish_scores_writable game depth w) as Hwr1.
  destruct (calculate_stockfish_scores_run game depth w)
    as (w1 & Hrun1 & Hun1 & Hcalls1).
  rewrite Hrun1 in Hwr1 |- *. cbn [snd] in Hwr1.
  destruct (ask_all (engine_calls w) (boards game) depth) as [infos1|e] eqn:H1.
  - rewrite <- (Hcalls1 infos1 eq_refl).
    pose proof (calculate_wdl_probabilities_writable game depth w1) as Hwr2.
    destruct (calculate_wdl_probabilities_run game depth w1)
      as (w2 & Hrun2 & Hun2).
    rewrite Hrun2 in Hwr2 |- *. cbn [snd] in Hwr2.
    destruct (ask_all (engine_calls w1) (boards game) depth) as [infos2|e] eqn:H2.
    + eexists. split; [reflexivity|].
      destruct Hun1 as (Hd1 & He1 & Hw1), Hun2 as (Hd2 & He2 & Hw2).
      cbn [db eval_history wdl_history]. rewrite Hwr2, Hwr1, Hd2, Hd1. auto.
    + exists w2. split; [reflexivity|]. eauto using untouched_trans.
  - exists w1. auto.
Qed.

End EvaluationFacts.

Section EvaluationTheorems.
Context `{Chess.Engine}.
Import Chess Evaluation.

Lemma wdl_triple_sums_to_one (x : Wdl) :
  wins x + draws x + losses x = 1000 -> sums_to_one (wdl_triple x).
Proof.
  intros Hx. unfold sums_to_one, wdl_triple, Qle, Qplus.
  cbn [Qnum Qden]. split; lia.
Qed.

(** C4.  When the figures of the oracle are permille and a run on a game
    of N plies succeeds, the evaluation it displays, and stores when the
    database takes the UPDATE, has N+1 scores, N+1 mate flags and N+1
    probability triples, one entry for each position from ply 0 to the last
    ply: the entry of a position is read off the answer of the oracle for
    that position, its triple being the win, draw and loss figures of the
    answer divided by 1000, and every triple sums to 1 within 0.01. *)
Theorem C4_evaluation_shape (current_user url pgn : string) (depth : Z)
  (w w' : World) :
  wdl_permille ->
  run_evaluation_analysis current_user url pgn depth w = (Ok tt, w') ->
  exists game scores is_mate wdl_probs,
    read_game pgn = Some game
    /\ eval_history w' = Some (scores, is_mate)
    /\ wdl_history w' = Some wdl_probs
    /\ db w'
       = (if db_writable w
          then Store.update_evaluation (db w) url
                 {| Store.scores := scores; Store.is_mate := is_mate;
                    Store.wdl_probs := wdl_probs; Store.depth := depth |}
          else db w)
    /\ length scores = S (plies game)
    /\ length is_mate = S (plies game)
    /\ length wdl_probs = S (plies game)
    /\ (forall i b, boards game !! i = Some b ->
          exists info1 info2,
            analyse (engine_calls w + i) b depth = Ok info1
            /\ analyse (engine_calls w + S (plies game) + i) b depth = Ok info2
            /\ scores !! i
               = Some (extract (pov info1 (pov_color current_user game))).2
            /\ is_mate !! i
               = Some (extract (pov info1 (pov_color current_user game))).1
            /\ wdl_probs !! i
               = Some
                   (wins (wdl (pov info2 (pov_color current_user game))) # 1000,
                    draws (wdl (pov info2 (pov_color current_user game))) # 1000,
                    losses (wdl (pov info2 (pov_color current_user game))) # 1000))
    /\ Forall sums_to_one wdl_probs.
Proof.
  intros Hwdl Hrun.
  pose proof (run_outcome current_user url pgn depth w) as Hout.
  destruct (read_game pgn) as [game|]; [|congruence].
  cbn zeta in Hout.
  destruct (ask_all (engine_calls w) (boards game) depth) as [infos1|e] eqn:H1.
  2:{ destruct Hout as (w1 & Hr & _). congruence. }
  destruct (ask_all (engine_calls w + S (plies game)) (boards game) depth)
    as [infos2|e] eqn:H2.
  2:{ destruct Hout as (w1 & Hr & _). congruence. }
  destruct Hout as (w1 & Hr & Hdb & Heh & Hwh).
  rewrite Hrun in Hr. injection Hr as <-.
  pose proof (ask_all_length _ _ _ _ H1) as Hl1.
  pose proof (ask_all_length _ _ _ _ H2) as Hl2.
  rewrite length_boards in Hl1, Hl2.
  eexists game, _, _, _. split; [reflexivity|].
  split; [exact Heh|]. split; [exact Hwh|]. split; [exact Hdb|].
  unfold scores_of, mates_of, wdl_of. rewrite !length_map.
  split; [assumption|]. split; [assumption|]. split; [assumption|].
  split.
  - intros i b Hb.
    destruct (ask_all_lookup _ _ _ _ _ _ H1 Hb) as (info1 & Ha1 & Hi1).
    destruct (ask_all_lookup _ _ _ _ _ _ H2 Hb) as (info2 & Ha2 & Hi2).
    exists info1, info2. split; [exact Ha1|]. split; [exact Ha2|].
    change (@map ?A ?B) with (@fmap list _ A B).
    rewrite !list_lookup_fmap, Hi1, Hi2. by repeat split.
  - apply Forall_map, Forall_forall. intros info _.
    apply wdl_triple_sums_to_one, Hwdl.
Qed.

(** C7.  If a call to the oracle raises at some position, in the pass for
    the scores or in the pass for the probabilities, the run raises, and
    the table and the displayed evaluation are what they were before it. *)
Theorem C7_oracle_failure_discards_run (current_user url pgn : string)
  (depth : Z) (w : World) (game : Game) (pass i : nat) (b : Position)
  (e : exn) :
  read_game pgn = Some game ->
  (pass < 2)%nat ->
  boards game !! i = Some b ->
  analyse (engine_calls w + pass * S (plies game) + i) b depth = Raise e ->
  exists e' w',
    run_evaluation_analysis current_user url pgn depth w = (Raise e', w')
    /\ untouched w w'.
Proof.
  intros Hg Hpass Hb He.
  pose proof (run_outcome current_user url pgn depth w) as Hout.
  rewrite Hg in Hout. cbn zeta in Hout.
  destruct (ask_all (engine_calls w) (boards game) depth) as [infos1|e1] eqn:H1.
  2:{ destruct Hout as (w1 & Hr & Hun). eauto. }
  destruct (ask_all (engine_calls w + S (plies game)) (boards game) depth)
    as [infos2|e2] eqn:H2.
  2:{ destruct Hout as (w1 & Hr & Hun). eauto. }
  exfalso. destruct pass as [|[|pass]]; [| |lia].
  - rewrite Nat.mul_0_l, Nat.add_0_r in He.
    destruct (ask_all_raises _ depth _ _ _ _ Hb He) as [e' He']. congruence.
  - rewrite Nat.mul_1_l in He.
    destruct (ask_all_raises _ depth _ _ _ _ Hb He) as [e' He']. congruence.
Qed.

(** Whatever the engine does, a run either raises and leaves the table as
    it was, or writes an evaluation with one entry per position. *)
Lemma run_writes_whole_evaluation_or_nothing (current_user url pgn : string)
  (depth : Z) (w : World) :
  (exists e w',
     run_evaluation_analysis current_user url pgn depth w = (Raise e, w')
     /\ untouched w w')
  \/ (exists game data w',
        run_evaluation_analysis current_user url pgn depth w = (Ok tt, w')
        /\ read_game pgn = Some game
        /\ db w'
           = (if db_writable w then Store.update_evaluation (db w) url data
              else db w)
        /\ length (Store.scores data) = S (plies game)
        /\ length (Store.is_mate data) = S (plies game)
        /\ length (Store.wdl_probs data) = S (plies game)).
Proof.
  pose proof (run_outcome current_user url pgn depth w) as Hout.
  destruct (read_game pgn) as [game|].
  2:{ left. eauto using untouched_refl. }
  cbn zeta in Hout.
  destruct (ask_all (engine_calls w) (boards game) depth) as [infos1|e] eqn:H1.
  2:{ left. destruct Hout as (w1 & Hr & Hun). eauto. }
  destruct (ask_all (engine_calls w + S (plies game)) (boards game) depth)
    as [infos2|e] eqn:H2.
  2:{ left. destruct Hout as (w1 & Hr & Hun). eauto. }
  right. destruct Hout as (w1 & Hr & Hdb & _).
  apply ask_all_length in H1, H2. rewrite length_boards in H1, H2.
  eexists game, _, w1. split; [exact Hr|]. split; [reflexivity|].
  split; [exact Hdb|]. cbn [Store.scores Store.is_mate Store.wdl_probs].
  unfold scores_of, mates_of, wdl_of. rewrite !length_map. auto.
Qed.

(** An engine that answers every call makes every run on a readable game
    succeed. *)
Lemma run_succeeds (current_user url pgn : string) (depth : Z) (w : World)
  (game : Game) :
  read_game pgn = Some game ->
  (forall n b, exists s, analyse n b depth = Ok s) ->
  exists w', run_evaluation_analysis current_user url pgn depth w = (Ok tt, w').
Proof.
  intros Hg Hok.
  pose proof (run_outcome current_user url pgn depth w) as Hout.
  rewrite Hg in Hout. cbn zeta in Hout.
  destruct (ask_all_answers (boards game) depth (engine_calls w)) as [i1 H1];
    [auto|].
  destruct (ask_all_answers (boards game) depth
              (engine_calls w + S (plies game))) as [i2 H2]; [auto|].
  rewrite H1, H2 in Hout. destruct Hout as (w' & Hr & _). eauto.
Qed.

End EvaluationTheorems.

Lemma sample_lib_permille : wdl_permille (H := sample_lib).
Proof. intros [c|n|]; cbn; try destruct (0 <? _); reflexivity. Qed.

(** C4, witness: a run of the steady engine on a game of two plies. *)
Lemma C4_evaluation_shape_witness :
  exists (game : @Chess.Game sample_lib) scores is_mate wdl_probs,
    Chess.read_game (Engine := steady_engine) "1. e4 e5 *" = Some game
    /\ Evaluation.eval_history sample_world_evaluated = Some (scores, is_mate)
    /\ Evaluation.wdl_history sample_world_evaluated = Some wdl_probs
    /\ Evaluation.db sample_world_evaluated
       = (if Evaluation.db_writable sample_world
          then Store.update_evaluation (Evaluation.db sample_world)
                 "https://www.chess.com/game/live/1"
                 {| Store.scores := scores; Store.is_mate := is_mate;
                    Store.wdl_probs := wdl_probs; Store.depth := 10 |}
          else Evaluation.db sample_world)
    /\ length scores = S (plies game)
    /\ length is_mate = S (plies game)
    /\ length wdl_probs = S (plies game)
    /\ (forall i b, boards game !! i = Some b ->
          exists info1 info2,
            Chess.analyse (Engine := steady_engine)
              (Evaluation.engine_calls sample_world + i) b 10 = Ok info1
            /\ Chess.analyse (Engine := steady_engine)
                 (Evaluation.engine_calls sample_world + S (plies game) + i)
                 b 10 = Ok info2
            /\ scores !! i
               = Some (Evaluation.extract
                         (Chess.pov info1
                            (Evaluation.pov_color "alice" game))).2
            /\ is_mate !! i
               = Some (Evaluation.extract
                         (Chess.pov info1
                            (Evaluation.pov_color "alice" game))).1
            /\ wdl_probs !! i
               = Some
                   (Chess.wins
                      (@Chess.wdl sample_lib
                         (Chess.pov info2
                            (Evaluation.pov_color "alice" game))) # 1000,
                    Chess.draws
                      (@Chess.wdl sample_lib
                         (Chess.pov info2
                            (Evaluation.pov_color "alice" game))) # 1000,
                    Chess.losses
                      (@Chess.wdl sample_lib
                         (Chess.pov info2
                            (Evaluation.pov_color "alice" game))) # 1000))
    /\ Forall sums_to_one wdl_probs.
Proof.
  apply (@C4_evaluation_shape sample_lib steady_engine "alice"
           "https://www.chess.com/game/live/1" "1. e4 e5 *" 10 sample_world
           sample_world_evaluated sample_lib_permille).
  vm_compute. reflexivity.
Defined.

(** When the database does not take the UPDATE the run still returns and
    shows the evaluation; the table keeps the evaluation it had. *)
Example locked_database_run :
  exists w',
    Evaluation.run_evaluation_analysis (H0 := steady_engine) "alice"
      "https://www.chess.com/game/live/1" "1. e4 e5 *" 10 sample_world_locked
    = (Ok tt, w')
    /\ Evaluation.db w' = Evaluation.db sample_world_locked
    /\ Evaluation.eval_history w'
       = Some ([Some (30 # 100); Some (30 # 100); Some (30 # 100)],
               [false; false; false]).
Proof. eexists. vm_compute. repeat split. Qed.

(** C7, witness: an engine that fails at the second position of the
    second pass. *)
Lemma C7_oracle_failure_witness :
  exists e' w',
    Evaluation.run_evaluation_analysis (H0 := failing_engine) "alice"
      "https://www.chess.com/game/live/1" "1. e4 e5 *" 10 sample_world
    = (Raise e', w')
    /\ untouched sample_world w'.
Proof.
  apply (@C7_oracle_failure_discards_run sample_lib failing_engine "alice"
           "https://www.chess.com/game/live/1" "1. e4 e5 *" 10 sample_world
           sample_game 1%nat 1%nat (standard_fen, ["e2e4"]) EngineError);
    [reflexivity | lia | reflexivity | reflexivity].
Defined.

(** What is recorded for each kind of score. *)
Lemma extract_cases :
  (forall c, Evaluation.extract (Chess.Cp c) = (false, Some (c # 100)))
  /\ (forall n, Evaluation.extract (Chess.Mate n)
                = (true, Some (inject_Z (if 0 <? n then 10 - n else - 10 - n))))
  /\ Evaluation.extract Chess.MateGiven = (true, Some (inject_Z 10)).
Proof.
  repeat split; intros; unfold Evaluation.extract; simpl;
    try destruct (0 <? _); reflexivity.
Qed.

(** C6, on long mates.  A mate in 12 for the side whose
    point of view is taken is recorded with the score -2, a mate in 10
    with 0 and a mate in 1 with 9, below the 15 recorded for a lead of
    1500 centipawns: the score of a mate is neither saturated nor of the
    sign of the winning side. *)
Theorem C6_long_mate_scored_negative :
  Evaluation.extract
    (Chess.pov {| Chess.relative := Chess.Mate 12; Chess.turn := Chess.White |}
       Chess.White)
  = (true, Some (inject_Z (-2)))
  /\ Evaluation.extract (Chess.Mate 10) = (true, Some (inject_Z 0))
  /\ Evaluation.extract (Chess.Mate 1) = (true, Some (inject_Z 9))
  /\ Evaluation.extract (Chess.Cp 1500) = (false, Some (1500 # 100)).
Proof. repeat split. Qed.

(** ** The rating window *)

Section RatingFacts.
Import Rating.




Lemma py_slice_inside {A} (l : list A) (a b : Z) :
  0 <= a -> a <= b -> b <= Z.of_nat (length l) ->
  py_slice l a b = take (Z.to_nat (b - a)) (drop (Z.to_nat a) l).
Proof.
  intros Ha Hab Hb. unfold py_slice, slice_bound.
  destruct (Z.ltb_spec a 0); [lia|]. destruct (Z.ltb_spec b 0); [lia|].
  by rewrite !Z.min_l by lia.
Qed.


End RatingFacts.


(** Values the sliders do not take, their range being 1 to M: on five
    points a start of 7 with an end of 3 is clamped to the third point, and
    an end of -1 counts from the end of the sequence. *)
Example window_outside_slider_range :
  (Rating.select_window
     {| Rating.elo_start_slider := 7; Rating.elo_end_slider := 3 |}
     sample_points).2
  = [ {| Rating.date := 1704283200; Rating.elo := 1499;
         Rating.time_control := "180" |} ]
  /\ (Rating.select_window
        {| Rating.elo_start_slider := 1; Rating.elo_end_slider := -1 |}
        sample_points).2
     = take 4 sample_points.
Proof. vm_compute. split; reflexivity. Qed.

(** The two games leave one row, that of the first. *)
Example two_linkless_games_one_row :
  match Parser.parse_pgn_games (Py.join blank_line two_linkless_games) with
  | Ok games =>
      length games = 2%nat
      /\ Store.upsert ∅ games = ({[ "" := Store.row_of linkless_record_a ]}, 1%nat)
  | Raise _ => False
  end.
Proof. vm_compute. split; reflexivity. Qed.

(** * Further properties *)

(** ** The parser, continued *)

Lemma split_from_nonempty sep s :
  length (Py.split sep s) <> 0%nat.
Proof. unfold Py.split. destruct (Py.split_from sep 0 s). simpl. lia. Qed.

Lemma parse_pgn_games_cons (raw : string) :
  exists g rest, Parser.parse_pgn_games raw = Ok (g :: rest).
Proof.
  rewrite parse_pgn_games_ok.
  pose proof (split_from_nonempty Parser.event_sep raw) as Hn.
  destruct (Py.split Parser.event_sep raw) as [|b bs]; [done|].
  simpl. eauto.
Qed.



Lemma rstrip_cons_nonspace c r :
  Py.isspace c = false -> Py.rstrip (String c r) = String c (Py.rstrip r).
Proof. intros Hc. simpl. rewrite Hc. by destruct (Py.rstrip r). Qed.

Lemma rstrip_idem s : Py.rstrip (Py.rstrip s) = Py.rstrip s.
Proof.
  induction s as [|c r IH]; [reflexivity|].
  cbn [Py.rstrip]. destruct (Py.rstrip r) as [|c' r'] eqn:Hr.
  - destruct (Py.isspace c) eqn:Hc; [reflexivity|].
    simpl. by rewrite Hc.
  - change (Py.rstrip (String c (String c' r')))
      with (match Py.rstrip (String c' r') with
            | EmptyString =>
                if Py.isspace c then EmptyString else String c EmptyString
            | r'' => String c r''
            end).
    by rewrite IH.
Qed.

Lemma lstrip_head s :
  Py.lstrip s = "" \/ exists c r, Py.lstrip s = String c r /\ Py.isspace c = false.
Proof.
  induction s as [|c r IH]; [by left|].
  simpl. destruct (Py.isspace c) eqn:Hc; [exact IH|]. right. eauto.
Qed.

Lemma strip_lstrip s : Py.lstrip (Py.strip s) = Py.strip s.
Proof.
  unfold Py.strip. destruct (lstrip_head s) as [->|(c & r & -> & Hc)];
    [reflexivity|].
  rewrite rstrip_cons_nonspace by exact Hc. simpl. by rewrite Hc.
Qed.

Lemma strip_rstrip s : Py.rstrip (Py.strip s) = Py.strip s.
Proof. unfold Py.strip. apply rstrip_idem. Qed.

Lemma strip_idem s : Py.strip (Py.strip s) = Py.strip s.
Proof. unfold Py.strip at 1. by rewrite strip_lstrip, strip_rstrip. Qed.

Lemma lstrip_empty_all_space s :
  Py.lstrip s = "" -> string_forall Py.isspace s = true.
Proof.
  induction s as [|c r IH]; [reflexivity|].
  simpl. destruct (Py.isspace c); [exact IH|discriminate].
Qed.

Lemma strip_empty_all_space s :
  Py.strip s = "" -> string_forall Py.isspace s = true.
Proof.
  unfold Py.strip. intros Hs. apply lstrip_empty_all_space.
  destruct (lstrip_head s) as [H|(c & r & Hl & Hc)]; [exact H|].
  rewrite Hl, rstrip_cons_nonspace in Hs by exact Hc. discriminate Hs.
Qed.

Lemma all_space_no_event s :
  string_forall Py.isspace s = true ->
  Py.contains Parser.event_sep s = false.
Proof.
  induction s as [|c1 r IH]; [reflexivity|].
  intros Hs. pose proof Hs as Hs'. simpl in Hs'.
  apply andb_true_iff in Hs' as [H1 Hr].
  cbn [Py.contains]. rewrite (IH Hr).
  assert (Hst : Py.startswith Parser.event_sep (String c1 r) = false).
  { destruct r as [|c2 [|c3 r]]; unfold Parser.event_sep;
      cbn [Py.startswith];
      repeat match goal with
      | |- context [Ascii.eqb ?a ?b] =>
          destruct (Ascii.eqb_spec a b); [subst|reflexivity]
      end; try reflexivity.
    simpl in Hr. discriminate Hr. }
  rewrite Hst. by destruct r.
Qed.

Lemma blank_text_one_block raw :
  Py.strip raw = "" -> Py.split Parser.event_sep raw = [raw].
Proof.
  intros Hb. unfold Py.split.
  rewrite split_from_last;
    [reflexivity|by apply all_space_no_event, strip_empty_all_space].
Qed.

Lemma record_of_blank raw : Py.strip raw = "" -> record_of 0 raw = empty_record.
Proof.
  intros Hb. unfold record_of, restore_event. cbn [Nat.ltb Nat.leb].
  rewrite Hb. vm_compute. reflexivity.
Qed.

(** C1.  A blank text has no game block, and [parse_pgn_games] does not
    skip it: it returns one record for it, with every field empty and the
    time stamp 0.  The list is not empty, so the test for an empty list
    in the callers lets it through, and the loop that creates a database
    stores it as a game, under the empty link. *)
Theorem C1_blank_text_parsed_as_a_game (raw : string)
  (rows : gmap string Settings.Row) :
  Py.strip raw = "" ->
  Parser.parse_pgn_games raw = Ok [empty_record]
  /\ (forall games, Parser.parse_pgn_games raw = Ok games ->
        length games = 1%nat
        /\ map Parser.pgn games = [""] /\ map Parser.url games = [""])
  /\ (rows !! "" = None ->
      Settings.insert_games rows [empty_record]
      = <["" := {| Settings.pgn := ""; Settings.white := "";
                   Settings.black := ""; Settings.end_time := 0 |}]> rows).
Proof.
  intros Hb.
  assert (Hp : Parser.parse_pgn_games raw = Ok [empty_record]).
  { rewrite parse_pgn_games_ok, (blank_text_one_block raw Hb).
    cbn [imap]. by rewrite record_of_blank. }
  split; [exact Hp|]. split.
  - intros games Hg. rewrite Hp in Hg. injection Hg as <-. by repeat split.
  - intros Hnone. unfold Settings.insert_games. cbn [fold_left].
    change (Parser.url empty_record) with "". by rewrite Hnone.
Qed.

(** C1, witness: the empty text, as the body of a month without games. *)
Lemma C1_blank_text_parsed_as_a_game_witness :
  Parser.parse_pgn_games "" = Ok [empty_record]
  /\ (forall games, Parser.parse_pgn_games "" = Ok games ->
        length games = 1%nat
        /\ map Parser.pgn games = [""] /\ map Parser.url games = [""])
  /\ ((∅ : gmap string Settings.Row) !! "" = None ->
      Settings.insert_games ∅ [empty_record]
      = <["" := {| Settings.pgn := ""; Settings.white := "";
                   Settings.black := ""; Settings.end_time := 0 |}]> ∅).
Proof.
  apply (C1_blank_text_parsed_as_a_game "" ∅). reflexivity.
Defined.

(** X1.  [parse_pgn_games] never returns an empty list: every text gives at
    least one record, and a blank text gives exactly the record whose
    fields are all empty.  The test for an empty list in its callers
    never fires. *)
Theorem X1_parse_never_empty (raw : string) :
  exists g rest,
    Parser.parse_pgn_games raw = Ok (g :: rest)
    /\ (Py.strip raw = "" -> g = empty_record /\ rest = []).
Proof.
  destruct (parse_pgn_games_cons raw) as (g & rest & Hp).
  exists g, rest. split; [exact Hp|]. intros Hb.
  rewrite parse_pgn_games_ok, (blank_text_one_block raw Hb) in Hp.
  cbn [imap] in Hp. injection Hp as <- <-.
  split; [by apply record_of_blank|reflexivity].
Qed.

(** X2.  The [pgn] field of every parsed record is trimmed: stripping it on
    the left, on the right or on both sides changes nothing. *)
Theorem X2_pgn_is_trimmed (raw : string) (games : list Parser.GameRecord) :
  Parser.parse_pgn_games raw = Ok games ->
  Forall (fun g =>
            Py.lstrip (Parser.pgn g) = Parser.pgn g
            /\ Py.rstrip (Parser.pgn g) = Parser.pgn g
            /\ Py.strip (Parser.pgn g) = Parser.pgn g) games.
Proof.
  rewrite parse_pgn_games_ok. intros [= <-].
  apply Forall_imap_record. intros i blk. cbn [Parser.pgn record_of].
  auto using strip_lstrip, strip_rstrip, strip_idem.
Qed.

Lemma X2_pgn_is_trimmed_witness :
  Forall (fun g =>
            Py.lstrip (Parser.pgn g) = Parser.pgn g
            /\ Py.rstrip (Parser.pgn g) = Parser.pgn g
            /\ Py.strip (Parser.pgn g) = Parser.pgn g)
    [linkless_record_a; linkless_record_b].
Proof.
  apply (X2_pgn_is_trimmed (Py.join blank_line two_linkless_games)).
  vm_compute. reflexivity.
Defined.

Lemma strip_keeps_event blk :
  Py.startswith "[Event" (Py.strip ("[Event" +:+ blk)) = true.
Proof.
  unfold Py.strip. rewrite !append_String, append_empty.
  change (Py.lstrip (String "[" ?r)) with (String "["%char r).
  rewrite !rstrip_cons_nonspace by reflexivity. reflexivity.
Qed.

(** X3.  Every record after the first has a [pgn] field that opens with the
    Event tag opening the split took away, and so is not empty. *)
Theorem X3_later_records_open_with_event (raw : string)
  (games : list Parser.GameRecord) (i : nat) (g : Parser.GameRecord) :
  Parser.parse_pgn_games raw = Ok games ->
  games !! S i = Some g ->
  Py.startswith "[Event" (Parser.pgn g) = true /\ Parser.pgn g <> "".
Proof.
  rewrite parse_pgn_games_ok. intros [= <-] Hg.
  rewrite list_lookup_imap in Hg.
  destruct (Py.split Parser.event_sep raw !! S i) as [blk|]; [|done].
  injection Hg as <-.
  change (Parser.pgn (record_of (S i) blk)) with (Py.strip ("[Event" +:+ blk)).
  pose proof (strip_keeps_event blk) as Hs. split; [exact Hs|].
  intros He. rewrite He in Hs. discriminate Hs.
Qed.

Lemma X3_later_records_open_with_event_witness :
  Py.startswith "[Event" (Parser.pgn linkless_record_b) = true
  /\ Parser.pgn linkless_record_b <> "".
Proof.
  apply (X3_later_records_open_with_event
           (Py.join blank_line two_linkless_games)
           [linkless_record_a; linkless_record_b] 0 linkless_record_b).
  - vm_compute. reflexivity.
  - reflexivity.
Defined.

(** Tags written out are read back. *)

Lemma span_all p k : forall c r,
  string_forall p k = true -> p c = false ->
  Py.span p (k +:+ String c r) = (k, String c r).
Proof.
  induction k as [|a k IH]; intros c r Hk Hc.
  - rewrite append_empty. simpl. by rewrite Hc.
  - simpl in Hk. apply andb_true_iff in Hk as [Ha Hk].
    rewrite append_String. simpl. rewrite Ha. by rewrite IH.
Qed.

Lemma length_append (a b : string) :
  String.length (a +:+ b) = (String.length a + String.length b)%nat.
Proof.
  induction a; rewrite ?append_String, ?append_empty; simpl; auto.
Qed.

Lemma tag_line_shape k v rest :
  tag_line k v +:+ rest
  = String "[" (k +:+ String " " (String Parser.quote
                  (v +:+ String Parser.quote (String "]" rest)))).
Proof.
  unfold tag_line.
  rewrite !string_app_assoc, !append_String, ?append_empty.
  rewrite string_app_assoc, !append_String, append_empty. reflexivity.
Qed.

Lemma length_tag_line k v :
  String.length (tag_line k v)
  = (String.length k + String.length v + 5)%nat.
Proof.
  unfold tag_line. rewrite !length_append. simpl.
  rewrite length_append. simpl. lia.
Qed.

Lemma match_tag_line k v rest :
  tag_key_ok k -> tag_value_ok v ->
  Parser.match_tag (tag_line k v +:+ rest)
  = Some (k, v, String.length (tag_line k v)).
Proof.
  intros [Hne Hk] Hv. rewrite tag_line_shape, length_tag_line.
  unfold Parser.match_tag.
  rewrite (span_all Py.isword k " " _ Hk eq_refl).
  destruct k as [|k0 k']; [done|].
  change (Py.span Py.isspace (String " " (String Parser.quote ?r)))
    with (String " "%char EmptyString, String Parser.quote r).
  cbv iota beta. rewrite Ascii.eqb_refl.
  rewrite (span_all _ v Parser.quote _ Hv).
  2:{ by rewrite Ascii.eqb_refl. }
  rewrite Ascii.eqb_refl. do 2 f_equal. simpl. lia.
Qed.

Lemma findall_from_skip x : forall rest,
  Parser.findall_from (String.length x) (x +:+ rest)
  = Parser.findall_from 0 rest.
Proof.
  induction x; intros rest; rewrite ?append_String, ?append_empty; simpl; auto.
Qed.

Lemma tag_line_cons k v :
  exists t,
    String.length t = (String.length k + String.length v + 4)%nat
    /\ forall rest, tag_line k v +:+ rest = String "[" (t +:+ rest).
Proof.
  exists (k +:+ String " " (String Parser.quote (v +:+ String Parser.quote "]"))).
  split.
  - rewrite length_append. simpl. rewrite length_append. simpl. lia.
  - intros rest. rewrite tag_line_shape.
    rewrite string_app_assoc, !append_String, string_app_assoc,
      !append_String, append_empty. reflexivity.
Qed.

Lemma findall_header_text (kvs : list (string * string)) (rest : string) :
  Forall (fun kv => tag_key_ok kv.1 /\ tag_value_ok kv.2) kvs ->
  Parser.findall (header_text kvs rest) = kvs ++ Parser.findall rest.
Proof.
  unfold Parser.findall. induction 1 as [|[k v] kvs [Hk Hv] Hall IH];
    [reflexivity|].
  cbn [header_text fst snd] in *.
  pose proof (match_tag_line k v (String Parser.nl (header_text kvs rest)) Hk Hv)
    as Hm.
  rewrite length_tag_line in Hm.
  destruct (tag_line_cons k v) as (t & Ht & Hshape).
  rewrite Hshape in Hm |- *.
  cbn [Parser.findall_from]. rewrite Hm. cbn [app]. f_equal.
  replace (String.length k + String.length v + 5 - 1)%nat
    with (String.length t) by lia.
  rewrite findall_from_skip. exact IH.
Qed.

Lemma sample_header_ok :
  Forall (fun kv => tag_key_ok kv.1 /\ tag_value_ok kv.2) sample_header.
Proof. repeat constructor; discriminate. Qed.

Lemma fold_insert_last_value (kvs : list (string * string)) :
  forall (m : gmap string string) k,
    fold_left (fun m kv => <[kv.1 := kv.2]> m) kvs m !! k
    = match last_value k kvs with
      | Some v => Some v
      | None => m !! k
      end.
Proof.
  induction kvs as [|[k' v] kvs IH]; intros m k; [reflexivity|].
  cbn [fold_left last_value fst snd]. rewrite IH.
  destruct (last_value k kvs); [reflexivity|].
  rewrite lookup_insert. destruct (decide (k' = k)); reflexivity.
Qed.

Lemma dict_last_value kvs k : Py.dict kvs !! k = last_value k kvs.
Proof.
  unfold Py.dict. rewrite fold_insert_last_value.
  destruct (last_value k kvs); [reflexivity|apply lookup_empty].
Qed.




(** The archive of the three games leaves two rows: the game with a link
    under its link, and the first game without one under the empty link. *)
Example three_games_two_rows :
  match Parser.parse_pgn_games (Py.join blank_line three_games) with
  | Ok games =>
      map Parser.url games = ["https://www.chess.com/game/live/2"; ""; ""]
      /\ Store.upsert ∅ games
         = ({[ "https://www.chess.com/game/live/2"
                 := Store.row_of linked_game_record;
               "" := Store.row_of linkless_record_a ]}, 2%nat)
  | Raise _ => False
  end.
Proof. vm_compute. split; reflexivity. Qed.

(** X4.  A header written as tag lines, one per pair of a word and a value
    without quote, is read back by the tag pattern as the same pairs in
    order, followed by the tags of the rest of the text; the dictionary
    of tags gives each key the value of its last line. *)
Theorem X4_tags_round_trip (kvs : list (string * string)) (rest k : string) :
  Forall (fun kv => tag_key_ok kv.1 /\ tag_value_ok kv.2) kvs ->
  Parser.findall (header_text kvs rest) = kvs ++ Parser.findall rest
  /\ Parser.tags_of (header_text kvs rest) !! k
     = last_value k (kvs ++ Parser.findall rest).
Proof.
  intros Hok. unfold Parser.tags_of.
  rewrite dict_last_value, findall_header_text by exact Hok. done.
Qed.

Lemma X4_tags_round_trip_witness :
  Parser.findall (header_text sample_header "1. e4 e5 *")
  = sample_header ++ Parser.findall "1. e4 e5 *"
  /\ Parser.tags_of (header_text sample_header "1. e4 e5 *") !! "White"
     = last_value "White" (sample_header ++ Parser.findall "1. e4 e5 *").
Proof.
  exact (X4_tags_round_trip sample_header "1. e4 e5 *" "White" sample_header_ok).
Defined.

(** ** The store, continued *)

Lemma insert_or_ignore_size db g :
  size (Store.insert_or_ignore db g).1
  = (size db + (Store.insert_or_ignore db g).2)%nat.
Proof.
  unfold Store.insert_or_ignore.
  destruct (db !! Parser.url g) eqn:Hg; simpl; [lia|].
  rewrite map_size_insert_None by exact Hg. lia.
Qed.

Lemma insert_or_ignore_dom db g :
  dom (Store.insert_or_ignore db g).1 = {[Parser.url g]} ∪ dom db.
Proof.
  unfold Store.insert_or_ignore.
  destruct (db !! Parser.url g) eqn:Hg; simpl.
  - apply elem_of_dom_2 in Hg. set_solver.
  - by rewrite dom_insert_L.
Qed.

Lemma insert_or_ignore_rowcount db g :
  (Store.insert_or_ignore db g).2 = 0%nat \/ (Store.insert_or_ignore db g).2 = 1%nat.
Proof. unfold Store.insert_or_ignore. destruct (db !! _); simpl; auto. Qed.

Lemma upsert_loop_size games : forall db n,
  (size (Store.upsert_loop db games n).1 + n
   = size db + (Store.upsert_loop db games n).2)%nat
  /\ (n <= (Store.upsert_loop db games n).2 <= n + length games)%nat.
Proof.
  induction games as [|g rest IH]; intros db n; simpl; [lia|].
  pose proof (insert_or_ignore_size db g) as Hs.
  pose proof (insert_or_ignore_rowcount db g) as Hr.
  destruct (Store.insert_or_ignore db g) as [db' rc]. simpl in Hs, Hr.
  destruct rc as [|rc].
  - destruct (IH db' n) as [H1 H2]. lia.
  - destruct (IH db' (n + 1)%nat) as [H1 H2]. lia.
Qed.

Lemma upsert_loop_dom games : forall db n,
  dom (Store.upsert_loop db games n).1
  = list_to_set (urls games) ∪ dom db.
Proof.
  induction games as [|g rest IH]; intros db n; simpl; [set_solver|].
  pose proof (insert_or_ignore_dom db g) as Hd.
  destruct (Store.insert_or_ignore db g) as [db' rc]. simpl in Hd.
  rewrite IH, Hd. set_solver.
Qed.

(** X5.  The count of new rows of an upsert is the growth of the table: the
    size after is the size before plus the count, the count is at most
    the number of records, and the keys after are the keys before and
    the links of the batch. *)
Theorem X5_upsert_counts_new_rows (db : gmap string Store.Row)
  (games : list Parser.GameRecord) :
  size (Store.upsert db games).1 = (size db + (Store.upsert db games).2)%nat
  /\ ((Store.upsert db games).2 <= length games)%nat
  /\ dom (Store.upsert db games).1 = list_to_set (urls games) ∪ dom db.
Proof.
  unfold Store.upsert.
  destruct (upsert_loop_size games db 0) as [H1 H2].
  split; [lia|]. split; [lia|]. apply upsert_loop_dom.
Qed.

(** X6.  An upsert never changes a row that is in the table: all its columns,
    the evaluation included, stay as they are. *)
Theorem X6_upsert_keeps_rows (db : gmap string Store.Row)
  (games : list Parser.GameRecord) (k : string) (r : Store.Row) :
  db !! k = Some r -> (Store.upsert db games).1 !! k = Some r.
Proof. apply upsert_loop_keeps. Qed.

Lemma X6_upsert_keeps_rows_witness :
  (Store.upsert (Evaluation.db sample_world)
     [linked_record; linkless_record_a]).1 !! sample_url
  = Some sample_row.
Proof.
  apply (X6_upsert_keeps_rows (Evaluation.db sample_world)
           [linked_record; linkless_record_a] sample_url sample_row).
  vm_compute. reflexivity.
Defined.

Lemma upsert_loop_count_shift games : forall db n,
  Store.upsert_loop db games n
  = ((Store.upsert_loop db games 0).1,
     (n + (Store.upsert_loop db games 0).2)%nat).
Proof.
  induction games as [|g rest IH]; intros db n; simpl; [f_equal; lia|].
  destruct (Store.insert_or_ignore db g) as [db' rc].
  destruct rc as [|rc].
  - apply IH.
  - rewrite (IH db' (n + 1)%nat), (IH db' 1%nat). simpl. f_equal. lia.
Qed.

(** X7.  Saving a batch in two parts, one after the other, gives the same
    table as saving it at once, and the two counts add up. *)
Theorem X7_upsert_in_two_batches (db : gmap string Store.Row)
  (a b : list Parser.GameRecord) :
  Store.upsert db (a ++ b)
  = ((Store.upsert (Store.upsert db a).1 b).1,
     ((Store.upsert db a).2 + (Store.upsert (Store.upsert db a).1 b).2)%nat).
Proof.
  unfold Store.upsert. rewrite upsert_loop_app.
  apply upsert_loop_count_shift.
Qed.

(** X8.  Among the records of a batch that share a link not yet in the table,
    the first one is the one stored. *)
Theorem X8_upsert_first_record_wins (db : gmap string Store.Row)
  (pre post : list Parser.GameRecord) (g : Parser.GameRecord) :
  db !! Parser.url g = None ->
  Forall (fun h => Parser.url h <> Parser.url g) pre ->
  (Store.upsert db (pre ++ g :: post)).1 !! Parser.url g
  = Some (Store.row_of g).
Proof.
  intros Hdb Hpre. unfold Store.upsert. rewrite upsert_loop_app. simpl.
  set (db1 := (Store.upsert_loop db pre 0).1).
  assert (H1 : db1 !! Parser.url g = None).
  { unfold db1. by rewrite upsert_loop_other. }
  unfold Store.insert_or_ignore. rewrite H1.
  apply upsert_loop_keeps. by rewrite lookup_insert_eq.
Qed.

Lemma X8_upsert_first_record_wins_witness :
  (Store.upsert (Evaluation.db sample_world)
     ([linkless_record_a] ++ linked_record :: [linked_record_again])).1
    !! Parser.url linked_record
  = Some (Store.row_of linked_record).
Proof.
  apply (X8_upsert_first_record_wins (Evaluation.db sample_world)
           [linkless_record_a] [linked_record_again] linked_record).
  - vm_compute. reflexivity.
  - repeat constructor. vm_compute. discriminate.
Defined.

Lemma update_evaluation_frame (db : gmap string Store.Row)
  (url k : string) (data : Store.EvalData) :
  dom (Store.update_evaluation db url data) = dom db
  /\ (k <> url -> Store.update_evaluation db url data !! k = db !! k)
  /\ (forall r, db !! url = Some r ->
        exists r', Store.update_evaluation db url data !! url = Some r'
          /\ Store.evaluation_data r' = Some data
          /\ Store.pgn r' = Store.pgn r /\ Store.end_time r' = Store.end_time r
          /\ Store.white r' = Store.white r /\ Store.black r' = Store.black r
          /\ Store.time_control r' = Store.time_control r)
  /\ (db !! url = None -> Store.update_evaluation db url data = db).
Proof.
  unfold Store.update_evaluation. split; [apply dom_alter_L|].
  split; [intros Hne; by rewrite lookup_alter_ne|].
  split.
  - intros r Hr. eexists. rewrite lookup_alter_eq, Hr. simpl.
    split; [reflexivity|]. by repeat split.
  - intros Hn. apply map_eq. intros j. rewrite lookup_alter.
    case_decide; subst; [by rewrite Hn|reflexivity].
Qed.

(** ** The schema *)

Section SchemaFacts.
Import Schema.

Lemma same_column_lower (c d : string) :
  fold_case c = c -> fold_case d = d -> same_column c d = bool_decide (c = d).
Proof. intros Hc Hd. unfold same_column. by rewrite Hc, Hd. Qed.

Lemma existsb_same_column c cols :
  fold_case c = c ->
  Forall (fun d => fold_case d = d) cols ->
  c ∉ cols ->
  existsb (same_column c) cols = false.
Proof.
  intros Hc Hall Hnot. induction Hall as [|d cols Hd Hall IH]; [reflexivity|].
  simpl. rewrite (same_column_lower c d Hc Hd).
  apply not_elem_of_cons in Hnot as [Hne Hnot].
  rewrite bool_decide_eq_false_2 by exact Hne. simpl. by apply IH.
Qed.

Lemma ensure_db_Some cols :
  ensure_db (Some cols)
  = if bool_decide ("time_control" ∈ cols) then Done (Some cols)
    else add_column "time_control" (Some cols).
Proof. reflexivity. Qed.

(** X9.  [ensure_db], when it goes through, keeps the columns of the table in
    place and only adds at the end, leaves a table that has the column
    time_control, and changes nothing when it is run again. *)
Theorem X9_ensure_db_additive_idempotent (t t' : table) :
  ensure_db t = Done t' ->
  ensure_db t' = Done t'
  /\ exists cols',
       t' = Some cols'
       /\ "time_control" ∈ cols'
       /\ match t with
          | Some cols => cols `prefix_of` cols'
          | None => cols' = insert_columns
          end.
Proof.
  destruct t as [cols|].
  - rewrite ensure_db_Some.
    destruct (bool_decide ("time_control" ∈ cols)) eqn:Hin.
    + intros [= Ht]; subst t'. rewrite ensure_db_Some, Hin.
      split; [reflexivity|]. exists cols.
      apply bool_decide_eq_true_1 in Hin. done.
    + unfold add_column. destruct (existsb _ cols); [discriminate|].
      intros [= Ht]; subst t'. rewrite ensure_db_Some.
      assert (Hin' : "time_control" ∈ cols ++ ["time_control"]) by set_solver.
      rewrite bool_decide_eq_true_2 by exact Hin'.
      split; [reflexivity|]. exists (cols ++ ["time_control"]).
      split; [reflexivity|]. split; [exact Hin'|]. by apply prefix_app_r.
  - vm_compute. intros [= Ht]; subst t'. split; [reflexivity|].
    eexists. split; [reflexivity|]. split; [|reflexivity]. set_solver.
Qed.

Lemma X9_ensure_db_additive_idempotent_witness :
  ensure_db (Some settings_columns)
  = Done (Some (settings_columns ++ ["time_control"]))
  /\ exists cols',
       Some (settings_columns ++ ["time_control"]) = Some cols'
       /\ "time_control" ∈ cols'
       /\ settings_columns `prefix_of` cols'.
Proof.
  apply (X9_ensure_db_additive_idempotent (Some settings_columns)
           (Some (settings_columns ++ ["time_control"]))).
  reflexivity.
Defined.

Lemma ensure_db_lower_case cols :
  Forall (fun d => fold_case d = d) cols ->
  ensure_db (Some cols)
  = Done (Some (if bool_decide ("time_control" ∈ cols) then cols
                else cols ++ ["time_control"])).
Proof.
  intros Hall. rewrite ensure_db_Some.
  destruct (bool_decide ("time_control" ∈ cols)) eqn:Hin; [reflexivity|].
  apply bool_decide_eq_false_1 in Hin.
  unfold add_column. by rewrite existsb_same_column.
Qed.

Lemma viewer_migration_lower_case cols :
  Forall (fun d => fold_case d = d) cols ->
  viewer_migration (Some cols)
  = Some (if bool_decide ("evaluation_data" ∈ cols) then cols
          else cols ++ ["evaluation_data"]).
Proof.
  intros Hall. unfold viewer_migration.
  change (table_info (Some cols)) with cols.
  destruct (bool_decide ("evaluation_data" ∈ cols)) eqn:Hin; [reflexivity|].
  apply bool_decide_eq_false_1 in Hin.
  unfold add_column. by rewrite existsb_same_column.
Qed.

Lemma elem_of_snoc_other (c d : string) cols :
  c <> d -> (c ∈ cols ++ [d]) <-> (c ∈ cols).
Proof.
  intros Hne. rewrite elem_of_app, list_elem_of_singleton. tauto.
Qed.

Lemma bool_decide_snoc_other (c d : string) cols :
  c <> d -> bool_decide (c ∈ cols ++ [d]) = bool_decide (c ∈ cols).
Proof. intros Hne. apply bool_decide_ext. by apply elem_of_snoc_other. Qed.

(** X10.  For a table whose column names are in lower case, the migration of
    the viewer and [ensure_db] go through in either order, and both
    orders give the same columns up to their order: those of the table,
    time_control and evaluation_data. *)
Theorem X10_migrations_in_either_order (cols : list string) :
  Forall (fun d => fold_case d = d) cols ->
  exists c1 c2,
    ensure_db (viewer_migration (Some cols)) = Done (Some c1)
    /\ (exists t, ensure_db (Some cols) = Done t
                  /\ viewer_migration t = Some c2)
    /\ c1 ≡ₚ c2
    /\ cols ⊆ c1
    /\ "time_control" ∈ c1
    /\ "evaluation_data" ∈ c1.
Proof.
  intros Hall.
  assert (Hl1 : Forall (fun d => fold_case d = d) (cols ++ ["evaluation_data"])).
  { apply Forall_app. split; [exact Hall|]. by repeat constructor. }
  assert (Hl2 : Forall (fun d => fold_case d = d) (cols ++ ["time_control"])).
  { apply Forall_app. split; [exact Hall|]. by repeat constructor. }
  pose proof (viewer_migration_lower_case cols Hall) as Hv.
  pose proof (ensure_db_lower_case cols Hall) as He.
  pose proof (viewer_migration_lower_case _ Hl2) as Hv2.
  pose proof (ensure_db_lower_case _ Hl1) as He2.
  rewrite bool_decide_snoc_other in Hv2, He2 by discriminate.
  destruct (bool_decide ("evaluation_data" ∈ cols)) eqn:Hed;
    destruct (bool_decide ("time_control" ∈ cols)) eqn:Htc;
    try apply bool_decide_eq_true_1 in Hed;
    try apply bool_decide_eq_true_1 in Htc;
    try apply bool_decide_eq_false_1 in Hed;
    try apply bool_decide_eq_false_1 in Htc.
  - exists cols, cols. rewrite Hv, He. split; [reflexivity|].
    split; [exists (Some cols); by rewrite Hv|]. set_solver.
  - exists (cols ++ ["time_control"]), (cols ++ ["time_control"]).
    rewrite Hv, He. split; [reflexivity|].
    split; [exists (Some (cols ++ ["time_control"])); by rewrite Hv2|].
    set_solver.
  - exists (cols ++ ["evaluation_data"]), (cols ++ ["evaluation_data"]).
    rewrite Hv, He2. split; [reflexivity|].
    split; [exists (Some cols); by rewrite He, Hv|]. set_solver.
  - exists ((cols ++ ["evaluation_data"]) ++ ["time_control"]),
           ((cols ++ ["time_control"]) ++ ["evaluation_data"]).
    rewrite Hv, He2. split; [reflexivity|].
    split; [exists (Some (cols ++ ["time_control"])); by rewrite He, Hv2|].
    split; [|set_solver].
    rewrite <- !app_assoc. apply Permutation_app_head. simpl. constructor.
Qed.

Lemma X10_migrations_in_either_order_witness :
  exists c1 c2,
    ensure_db (viewer_migration (Some base_columns)) = Done (Some c1)
    /\ (exists t, ensure_db (Some base_columns) = Done t
                  /\ viewer_migration t = Some c2)
    /\ c1 ≡ₚ c2
    /\ base_columns ⊆ c1
    /\ "time_control" ∈ c1
    /\ "evaluation_data" ∈ c1.
Proof.
  apply (X10_migrations_in_either_order base_columns). by repeat constructor.
Defined.

(** Without the table the migration of the viewer changes nothing: it
    does not create the table. *)
Lemma viewer_migration_without_table : viewer_migration None = None.
Proof. reflexivity. Qed.

End SchemaFacts.

(** ** Fetch and save *)

Section FetchFacts.
Import Fetch.

Lemma upsert_subseteq db games : db ⊆ (Store.upsert db games).1.
Proof.
  apply map_subseteq_spec. intros k r Hk. by apply upsert_loop_keeps.
Qed.

Lemma save_outcome games db :
  rows db ⊆ rows (save games db).2
  /\ match (save games db).1 with
     | (true, Processed n k) =>
         n = length games
         /\ size (rows (save games db).2) = (size (rows db) + k)%nat
         /\ (k <= n)%nat
         /\ exists t, Schema.ensure_db (schema db) = Schema.Done t
                      /\ schema (save games db).2 = t
     | (false, DatabaseError) => rows (save games db).2 = rows db
     | _ => False
     end.
Proof.
  unfold save. destruct (Schema.ensure_db (schema db)) as [t|]; [|done].
  destruct (insert_possible t); [|done].
  pose proof (upsert_subseteq (rows db) games) as Hsub.
  destruct (upsert_loop_size games (rows db) 0) as [H1 H2].
  unfold Store.upsert in *.
  destruct (Store.upsert_loop (rows db) games 0) as [rows' k].
  cbn [fst snd rows schema] in *. split; [done|]. split; [done|].
  split; [lia|]. split; [lia|]. eauto.
Qed.

(** X11.  [fetch_current_month_games_and_save_to_db] never loses a row, and
    its answers are these: a count of games processed, at least one,
    with the table grown by the count of new rows; no games found, for a
    blank text and nothing else, the database untouched; the 404 answer,
    the database untouched; or a failure, the rows as they were.  The
    answer that zero games were parsed is never given. *)
Theorem X11_fetch_and_save_outcomes (resp : response) (db : database) :
  rows db ⊆ rows (fetch_current_month_games_and_save_to_db resp db).2
  /\ match (fetch_current_month_games_and_save_to_db resp db).1 with
     | (true, Processed n k) =>
         (1 <= n)%nat /\ (k <= n)%nat
         /\ size (rows (fetch_current_month_games_and_save_to_db resp db).2)
            = (size (rows db) + k)%nat
     | (true, NoGamesFound) =>
         fetch_current_month_games_and_save_to_db resp db
         = ((true, NoGamesFound), db)
         /\ exists raw, resp = Body raw /\ Py.strip raw = ""
     | (true, NotFound404) =>
         fetch_current_month_games_and_save_to_db resp db
         = ((true, NotFound404), db)
         /\ resp = HTTPError 404
     | (false, m) =>
         rows (fetch_current_month_games_and_save_to_db resp db).2 = rows db
         /\ (m = DatabaseError
             \/ resp = OtherException
             \/ exists s, resp = HTTPError s /\ s <> 404)
     | _ => False
     end.
Proof.
  destruct resp as [raw|s|]; cbn [fetch_current_month_games_and_save_to_db].
  - destruct (Py.strip raw) as [|c r] eqn:Hs.
    { simpl. split; [done|]. split; [done|]. eauto. }
    destruct (parse_pgn_games_cons raw) as (g & rest & ->).
    pose proof (save_outcome (g :: rest) db) as [Hsub Hm].
    split; [exact Hsub|].
    destruct (save (g :: rest) db) as [[ok m] db']. cbn [fst snd] in *.
    destruct ok, m; try done.
    + destruct Hm as (-> & Hsz & Hk & _). cbn [length] in *.
      split; [lia|]. split; [lia|exact Hsz].
    + eauto.
  - destruct (Z.eqb_spec s 404) as [->|Hne]; simpl.
    + split; [done|]. done.
    + split; [done|]. split; [done|]. right. right. eauto.
  - simpl. split; [done|]. split; [done|]. auto.
Qed.

End FetchFacts.

(** ** Navigation *)

Section NavFacts.
Context `{Chess.Engine}.
Context {squares : Nav.Squares}.
Import Chess Nav.

Lemma board_pop_pushed (b : Board) (m : Move) :
  board_pop (pushed b m) = Some b.
Proof. by destruct b. Qed.

Lemma position_fold_pushed (l : list Move) : forall b : Board,
  position (fold_left pushed l b) = fold_left push l (position b).
Proof. induction l as [|m l IH]; intros b; [reflexivity|]. apply IH. Qed.

Lemma played_S base (ms : list Move) k m :
  ms !! k = Some m ->
  played base ms (S k) = pushed (played base ms k) m.
Proof.
  intros Hk. unfold played. by rewrite (take_S_r _ _ _ Hk), fold_left_app.
Qed.

Lemma played_ge base (ms : list Move) k :
  (length ms <= k)%nat -> played base ms k = played base ms (length ms).
Proof. intros Hk. unfold played. by rewrite !take_ge by lia. Qed.

(** Along a playable line every move finds its piece. *)
Lemma playable_lookup (ms : list Move) : forall base k m,
  playable base ms = true ->
  ms !! k = Some m ->
  piece_at_from_square (fold_left push (take k ms) base) m = true.
Proof.
  induction ms as [|m0 ms IH]; intros base k m Hp Hk; [done|].
  cbn [playable] in Hp. apply andb_true_iff in Hp as [Hm0 Hp].
  destruct k as [|k]; [by injection Hk as <-|].
  cbn [take fold_left]. by apply IH.
Qed.

Lemma board_push_played base (ms : list Move) k m :
  playable base ms = true ->
  ms !! k = Some m ->
  board_push (played base ms k) m = Some (played base ms (S k)).
Proof.
  intros Hp Hk. unfold board_push.
  assert (Hsq : piece_at_from_square (position (played base ms k)) m = true).
  { unfold played. rewrite position_fold_pushed. by apply playable_lookup. }
  by rewrite Hsq, (played_S _ _ _ _ Hk).
Qed.

Lemma nav_push_upto_played base (ms : list Move) k :
  playable base ms = true ->
  push_upto ms k (board_at base) = Some (played base ms k).
Proof.
  intros Hp. unfold push_upto. induction k as [|k IH]; [reflexivity|].
  rewrite seq_S, fold_left_app, IH. simpl.
  destruct (ms !! k) as [m|] eqn:Hk.
  - by apply board_push_played.
  - apply lookup_ge_None in Hk.
    rewrite (played_ge _ _ k), (played_ge _ _ (S k)) by lia. reflexivity.
Qed.

Lemma go_start_loop_played base (ms : list Move) k :
  (k <= length ms)%nat ->
  go_start_loop k (played base ms k) = Some (board_at base).
Proof.
  induction k as [|k IH]; intros Hk; [reflexivity|].
  destruct (lookup_lt_is_Some_2 ms k) as [m Hm]; [lia|].
  cbn [go_start_loop]. rewrite (played_S _ _ _ _ Hm), board_pop_pushed.
  simpl. apply IH. lia.
Qed.

Lemma go_next_shows base ms st :
  shows base ms st -> playable base ms = true ->
  exists st', go_next st = Some st' /\ shows base ms st'.
Proof.
  intros (Hm & Hi & Hb) Hp. unfold go_next.
  destruct (moves st !! idx st) as [m|] eqn:Hk; [|by exists st].
  pose proof (lookup_lt_Some _ _ _ Hk) as Hlt. rewrite Hm in Hk, Hlt.
  rewrite Hb, (board_push_played _ _ _ _ Hp Hk). simpl.
  eexists. split; [reflexivity|].
  repeat split; cbn [moves idx board]; [done|lia].
Qed.

Lemma go_prev_shows base ms st :
  shows base ms st -> exists st', go_prev st = Some st' /\ shows base ms st'.
Proof.
  intros (Hm & Hi & Hb). unfold go_prev.
  destruct (idx st) as [|i] eqn:Hidx; [exists st; by rewrite <- Hidx in *|].
  destruct (lookup_lt_is_Some_2 ms i) as [m Hk]; [lia|].
  rewrite Hb, (played_S _ _ _ _ Hk), board_pop_pushed. simpl.
  eexists. split; [reflexivity|]. repeat split; cbn [moves idx board]; [done|lia].
Qed.

Lemma go_start_shows base ms st :
  shows base ms st ->
  go_start st = Some {| moves := ms; idx := 0; board := board_at base |}.
Proof.
  intros (Hm & Hi & Hb). unfold go_start.
  rewrite Hb, go_start_loop_played by exact Hi. simpl. by rewrite Hm.
Qed.

Lemma go_end_loop_shows base ms fuel : forall st,
  shows base ms st -> playable base ms = true ->
  (length ms <= idx st + fuel)%nat ->
  go_end_loop fuel st
  = Some {| moves := ms; idx := length ms;
            board := played base ms (length ms) |}.
Proof.
  induction fuel as [|fuel IH]; intros st (Hm & Hi & Hb) Hp Hf.
  - simpl. destruct st as [ms' i b]. cbn [moves idx board] in *. subst.
    do 2 f_equal; [lia|]. f_equal. lia.
  - cbn [go_end_loop].
    destruct (moves st !! idx st) as [m|] eqn:Hk.
    + pose proof (lookup_lt_Some _ _ _ Hk) as Hlt. rewrite Hm in Hk, Hlt.
      rewrite Hb, (board_push_played _ _ _ _ Hp Hk). simpl.
      apply IH; [|exact Hp|cbn [idx]; lia].
      repeat split; cbn [moves idx board]; [done|lia].
    + apply lookup_ge_None in Hk. rewrite Hm in Hk.
      destruct st as [ms' i b]. cbn [moves idx board] in *. subst.
      do 2 f_equal; [lia|]. f_equal. lia.
Qed.

Lemma go_end_shows base ms st :
  shows base ms st -> playable base ms = true ->
  go_end st
  = Some {| moves := ms; idx := length ms;
            board := played base ms (length ms) |}.
Proof.
  intros Hs Hp. unfold go_end.
  apply (go_end_loop_shows base); [exact Hs|exact Hp|].
  destruct Hs as (-> & _ & _). lia.
Qed.

Lemma on_slider_change_shows base ms k st :
  shows base ms st -> (k <= length ms)%nat ->
  playable starting_position ms = true ->
  exists st',
    on_slider_change k st = Some st'
    /\ ((k = idx st /\ st' = st)
        \/ (k <> idx st /\ shows starting_position ms st')).
Proof.
  intros (Hm & Hi & Hb) Hk Hp. unfold on_slider_change.
  destruct (decide (k <> idx st)) as [Hne|Heq].
  - rewrite Hm, (nav_push_upto_played _ _ _ Hp). simpl.
    eexists. split; [reflexivity|]. right. split; [exact Hne|].
    by repeat split.
  - exists st. split; [reflexivity|]. left. split; [lia|reflexivity].
Qed.

(** The states a list of actions goes through all show the game, from the
    position of the game or, once the slider has jumped, from the standard
    position. *)
Lemma run_shows (ms : list Move) (acts : list action) : forall st base,
  shows base ms st ->
  playable base ms = true ->
  (existsb is_slide acts = true -> playable starting_position ms = true) ->
  exists st' base',
    run acts st = Some st'
    /\ shows base' ms st'
    /\ playable base' ms = true
    /\ (base' = base
        \/ (base' = starting_position /\ existsb is_slide acts = true)).
Proof.
  induction acts as [|a acts IH]; intros st base Hs Hp Hslide.
  - exists st, base. simpl. auto.
  - cbn [run]. destruct a as [| | | |k]; cbn [act existsb is_slide orb] in *.
    + destruct (go_next_shows _ _ _ Hs Hp) as (st1 & -> & Hs1). simpl.
      apply (IH _ base); assumption.
    + destruct (go_prev_shows _ _ _ Hs) as (st1 & -> & Hs1). simpl.
      apply (IH _ base); assumption.
    + rewrite (go_start_shows _ _ _ Hs). simpl.
      apply (IH _ base); [|assumption|assumption].
      repeat split; cbn [idx moves board]; try done; lia.
    + rewrite (go_end_shows _ _ _ Hs Hp). simpl.
      apply (IH _ base); [|assumption|assumption].
      repeat split; cbn [idx moves board]; try done; lia.
    + specialize (Hslide eq_refl).
      destruct (on_slider_change_shows base ms
                  (Nat.min k (length (moves st))) st Hs)
        as (st1 & -> & Hcase); [destruct Hs as (-> & _ & _); lia|exact Hslide|].
      simpl. destruct Hcase as [[_ ->]|[_ Hs1]].
      * destruct (IH st base Hs Hp (fun _ => Hslide))
          as (st' & base' & Hrun & Hs' & Hp' & Hb').
        exists st', base'. split; [exact Hrun|]. split; [exact Hs'|].
        split; [exact Hp'|]. destruct Hb' as [->|[-> _]]; auto.
      * destruct (IH st1 starting_position Hs1 Hslide (fun _ => Hslide))
          as (st' & base' & Hrun & Hs' & Hp' & Hb').
        exists st', base'. split; [exact Hrun|]. split; [exact Hs'|].
        split; [exact Hp'|]. destruct Hb' as [->|[-> _]]; auto.
Qed.

Lemma on_game_select_shows (pgn : string) (g : Game) :
  read_game pgn = Some g ->
  exists st,
    on_game_select pgn = Some st
    /\ shows (game_board g) (mainline_moves g) st.
Proof.
  intros Hg. unfold on_game_select. rewrite Hg. simpl.
  eexists. split; [reflexivity|].
  repeat split; cbn [idx moves board]; try done; lia.
Qed.

Lemma length_stack_played base (ms : list Move) k :
  (k <= length ms)%nat -> length (stack (played base ms k)) = k.
Proof.
  intros Hk. unfold played.
  assert (Hlen : forall (l : list Move) b,
            length (stack (fold_left pushed l b))
            = (length (stack b) + length l)%nat).
  { induction l as [|m l IHl]; intros b; simpl; [lia|].
    rewrite IHl. simpl. lia. }
  rewrite Hlen. simpl. rewrite length_take. lia.
Qed.

(** The paths that raise. *)
Lemma on_game_select_without_game (pgn : string) :
  read_game pgn = None -> on_game_select pgn = None.
Proof. intros Hg. unfold on_game_select. by rewrite Hg. Qed.

Lemma slider_jump_raises (st : Viewer) (m : Move) (rest : list Move) (k : nat) :
  moves st = m :: rest ->
  piece_at_from_square starting_position m = false ->
  k <> idx st -> (0 < k)%nat ->
  on_slider_change k st = None.
Proof.
  intros Hm Hsq Hne Hk. unfold on_slider_change.
  destruct (decide (k <> idx st)); [|done].
  destruct k as [|k]; [lia|].
  assert (Hfirst : board_push (board_at starting_position) m = None).
  { unfold board_push. cbn [position board_at]. by rewrite Hsq. }
  unfold push_upto. rewrite Hm. cbn [seq fold_left].
  change ((m :: rest) !! 0%nat) with (Some m). cbn [mbind option_bind].
  rewrite Hfirst.
  assert (Hnone : forall (f : option Board -> nat -> option Board) l,
            (forall i, f None i = None) -> fold_left f l None = None).
  { intros f l Hf. induction l as [|i l IHl]; [reflexivity|].
    simpl. by rewrite Hf. }
  by rewrite Hnone.
Qed.

(** X12.  When the moves of the game can be played from its position, as
    the moves [read_game] returns can, whatever buttons follow the
    selection of the game no action raises; the same holds with moves of
    the slider among them when the moves can also be played from the
    standard position, as they can for a game that starts there.  The
    index stays between 0 and the number of moves, the board is the game
    played to that index from the position of the game or, after a jump of
    the slider, from the standard position, and the move stack holds as
    many entries as the index. *)
Theorem X12_navigation_never_fails (pgn : string) (g : Game)
  (acts : list action) :
  read_game pgn = Some g ->
  playable (game_board g) (mainline_moves g) = true ->
  (existsb is_slide acts = true ->
   playable starting_position (mainline_moves g) = true) ->
  exists st0 st base,
    on_game_select pgn = Some st0
    /\ run acts st0 = Some st
    /\ (base = game_board g
        \/ (base = starting_position /\ existsb is_slide acts = true))
    /\ moves st = mainline_moves g
    /\ (idx st <= length (mainline_moves g))%nat
    /\ board st = played base (mainline_moves g) (idx st)
    /\ length (stack (board st)) = idx st.
Proof.
  intros Hg Hp Hslide.
  destruct (on_game_select_shows pgn g Hg) as (st0 & Hsel & Hs0).
  destruct (run_shows _ acts st0 (game_board g) Hs0 Hp Hslide)
    as (st & base & Hrun & (Hm & Hi & Hb) & _ & Hbase).
  exists st0, st, base. repeat split; try done.
  rewrite Hb. by apply length_stack_played.
Qed.

Lemma run_app (a b : list action) (st : Viewer) :
  run (a ++ b) st = st' ← run a st; run b st'.
Proof.
  revert st. induction a as [|x a IH]; intros st; simpl.
  - by destruct (run b st).
  - destruct (act x st); simpl; [apply IH|reflexivity].
Qed.

(** X13.  Under the same conditions, after any actions Start gives index 0
    on the bare base position and End gives the index of the last move
    with every move played. *)
Theorem X13_start_and_end_reach_the_ends (pgn : string) (g : Game)
  (acts : list action) :
  read_game pgn = Some g ->
  playable (game_board g) (mainline_moves g) = true ->
  (existsb is_slide acts = true ->
   playable starting_position (mainline_moves g) = true) ->
  exists st0 base,
    on_game_select pgn = Some st0
    /\ (base = game_board g
        \/ (base = starting_position /\ existsb is_slide acts = true))
    /\ run (acts ++ [Start]) st0
       = Some {| moves := mainline_moves g; idx := 0;
                 board := board_at base |}
    /\ run (acts ++ [End_]) st0
       = Some {| moves := mainline_moves g;
                 idx := length (mainline_moves g);
                 board := played base (mainline_moves g)
                            (length (mainline_moves g)) |}.
Proof.
  intros Hg Hp Hslide.
  destruct (on_game_select_shows pgn g Hg) as (st0 & Hsel & Hs0).
  destruct (run_shows _ acts st0 (game_board g) Hs0 Hp Hslide)
    as (st & base & Hrun & Hs & Hp' & Hbase).
  exists st0, base. split; [exact Hsel|]. split; [exact Hbase|].
  rewrite !run_app, Hrun. simpl.
  by rewrite (go_start_shows _ _ _ Hs), (go_end_shows _ _ _ Hs Hp').
Qed.

(** X14.  When the next move finds its piece, Next does not raise, and
    Prev after it gives back the state of the viewer, board and move stack
    included. *)
Theorem X14_prev_undoes_next (st : Viewer) (m : Move) :
  moves st !! idx st = Some m ->
  piece_at_from_square (position (board st)) m = true ->
  exists st', go_next st = Some st' /\ go_prev st' = Some st.
Proof.
  intros Hm Hsq. unfold go_next, board_push. rewrite Hm, Hsq. simpl.
  eexists. split; [reflexivity|].
  unfold go_prev. cbn [idx board moves]. rewrite board_pop_pushed. simpl.
  by destruct st.
Qed.

End NavFacts.

(** In the sample rules the four middle ranks of the standard position are
    empty: a jump of the slider on the game that starts with a pawn on e4
    raises. *)
Example slider_jump_on_advanced_pawn_game :
  Nav.on_slider_change (squares := sample_squares) 1 advanced_pawn_viewer
  = None
  /\ Nav.go_next (squares := sample_squares) advanced_pawn_viewer <> None.
Proof. vm_compute. split; [reflexivity|discriminate]. Qed.

Lemma X12_navigation_never_fails_witness :
  exists st0 st base,
    Nav.on_game_select (H0 := steady_engine) "1. e4 e5 *" = Some st0
    /\ Nav.run (squares := sample_squares) sample_actions st0 = Some st
    /\ (base = Chess.game_board sample_game
        \/ (base = Chess.starting_position
            /\ existsb Nav.is_slide sample_actions = true))
    /\ Nav.moves st = Chess.mainline_moves sample_game
    /\ (Nav.idx st <= length (Chess.mainline_moves sample_game))%nat
    /\ Nav.board st
       = Nav.played base (Chess.mainline_moves sample_game) (Nav.idx st)
    /\ length (Nav.stack (Nav.board st)) = Nav.idx st.
Proof.
  apply (@X12_navigation_never_fails sample_lib steady_engine sample_squares
           "1. e4 e5 *" sample_game sample_actions); reflexivity.
Defined.

Lemma X13_start_and_end_reach_the_ends_witness :
  exists st0 base,
    Nav.on_game_select (H0 := steady_engine) "1. e4 e5 *" = Some st0
    /\ (base = Chess.game_board sample_game
        \/ (base = Chess.starting_position
            /\ existsb Nav.is_slide sample_actions = true))
    /\ Nav.run (squares := sample_squares) (sample_actions ++ [Nav.Start]) st0
       = Some {| Nav.moves := Chess.mainline_moves sample_game;
                 Nav.idx := 0;
                 Nav.board := Nav.board_at base |}
    /\ Nav.run (squares := sample_squares) (sample_actions ++ [Nav.End_]) st0
       = Some {| Nav.moves := Chess.mainline_moves sample_game;
                 Nav.idx := length (Chess.mainline_moves sample_game);
                 Nav.board :=
                   Nav.played base (Chess.mainline_moves sample_game)
                     (length (Chess.mainline_moves sample_game)) |}.
Proof.
  apply (@X13_start_and_end_reach_the_ends sample_lib steady_engine
           sample_squares "1. e4 e5 *" sample_game sample_actions);
    reflexivity.
Defined.

Lemma X14_prev_undoes_next_witness :
  exists st',
    Nav.go_next (squares := sample_squares) setup_viewer = Some st'
    /\ Nav.go_prev st' = Some setup_viewer.
Proof.
  apply (@X14_prev_undoes_next sample_lib sample_squares setup_viewer "e2e4");
    reflexivity.
Defined.

(** ** The settings dialog *)

Section SettingsFacts.
Import Settings.

Lemma in_range_code lo hi c :
  Py.in_range lo hi c = true -> lo <= Py.code c <= hi.
Proof.
  unfold Py.in_range. rewrite andb_true_iff, !Z.leb_le. tauto.
Qed.

Lemma d_code c : Datetime.d_ c = true -> 48 <= Py.code c <= 57.
Proof. apply in_range_code. Qed.

Lemma dig_code lo hi c :
  Datetime.dig lo hi c = true -> 48 + lo <= Py.code c <= 48 + hi.
Proof. apply in_range_code. Qed.

Lemma code_not_space c : 33 <= Py.code c <= 127 -> Py.isspace c = false.
Proof.
  intros Hc. unfold Py.isspace, Py.in_range.
  repeat match goal with
  | |- context [?a <=? ?b] => destruct (Z.leb_spec a b); try lia
  | |- context [?a =? ?b] => destruct (Z.eqb_spec a b); try lia
  end; reflexivity.
Qed.

Lemma code_not_char (a c : ascii) : Py.code c <> Py.code a -> Ascii.eqb a c = false.
Proof.
  intros Hne. destruct (Ascii.eqb_spec a c) as [->|]; [done|reflexivity].
Qed.

Lemma d_isdecimal c : Datetime.d_ c = true -> Py.isdecimal c = true.
Proof. done. Qed.

Lemma match_date_shape s :
  match_date s = true ->
  exists a b c d e f tl,
    s = String a (String b (String "/" (String c (String d (String e (String f tl))))))
    /\ (tl = "" \/ tl = String Parser.nl "")
    /\ ((a = "0"%char /\ Datetime.dig 1 9 b = true)
        \/ (a = "1"%char /\ Datetime.dig 0 2 b = true))
    /\ Datetime.d_ c = true /\ Datetime.d_ d = true
    /\ Datetime.d_ e = true /\ Datetime.d_ f = true.
Proof.
  unfold match_date, Datetime.literal. intros H.
  destruct s as [|a [|b [|x [|c [|d [|e [|f tl]]]]]]];
    cbn [Datetime.first_alt Datetime.match_seq] in H.
  all: repeat first
       [ discriminate H
       | match type of H with
         | context [if ?t then _ else _] => destruct t eqn:?
         end ].
  all: repeat match goal with
       | Hx : Datetime.lit _ _ = true |- _ =>
           unfold Datetime.lit in Hx; apply Ascii.eqb_eq in Hx; subst
       | Hx : Ascii.eqb _ _ = true |- _ => apply Ascii.eqb_eq in Hx; subst
       end.
  all: assert (Htl : tl = "" \/ tl = String Parser.nl "")
         by (destruct tl as [|n [|]]; [by left| |discriminate H];
             apply Ascii.eqb_eq in H; subst; by right).
  all: do 7 eexists; split; [reflexivity|]; split; [exact Htl|].
  all: split; [|by repeat split].
  all: first [by left | by right].
Qed.

Lemma parse_date_digits a b c d e f :
  Datetime.d_ a = true -> Datetime.d_ b = true ->
  Datetime.d_ c = true -> Datetime.d_ d = true ->
  Datetime.d_ e = true -> Datetime.d_ f = true ->
  parse_date (String a (String b (String "/" (String c (String d
                (String e (String f ""))))))) 
  = Some (10 * (Py.code a - 48) + (Py.code b - 48),
          10 * (10 * (10 * (Py.code c - 48) + (Py.code d - 48))
                + (Py.code e - 48)) + (Py.code f - 48)).
Proof.
  intros Ha Hb Hc Hd He Hf. unfold parse_date, Py.split.
  assert (Hs : forall x, Datetime.d_ x = true -> Ascii.eqb "/" x = false).
  { intros x Hx. apply code_not_char. apply d_code in Hx.
    change (Py.code "/") with 47. lia. }
  cbn [Py.split_from Py.startswith String.length Nat.sub].
  rewrite (Hs a Ha), (Hs b Hb), (Hs c Hc), (Hs d Hd), (Hs e He), (Hs f Hf).
  cbn [Ascii.eqb Bool.eqb]. cbv iota.
  unfold int_of_digits, Datetime.int.
  cbn [string_forall Datetime.int_acc].
  rewrite !d_isdecimal by assumption. cbn. do 2 f_equal; lia.
Qed.

Lemma validated_date_parses (entry : string) :
  match_date (Py.strip entry) = true ->
  exists m y,
    parse_date (Py.strip entry) = Some (m, y)
    /\ 1 <= m <= 12 /\ 0 <= y <= 9999
    /\ String.length (Py.strip entry) = 7%nat.
Proof.
  intros Hm.
  destruct (match_date_shape _ Hm)
    as (a & b & c & d & e & f & tl & Hs & Htl & Hab & Hc & Hd & He & Hf).
  assert (Ha : Datetime.d_ a = true /\ Datetime.d_ b = true
               /\ 1 <= 10 * (Py.code a - 48) + (Py.code b - 48) <= 12).
  { destruct Hab as [[-> Hb]|[-> Hb]]; apply dig_code in Hb as Hb';
      (split; [reflexivity|]);
      (split; [apply andb_true_iff; rewrite !Z.leb_le; lia|]);
      change (Py.code "0") with 48; change (Py.code "1") with 49; lia. }
  destruct Ha as (Ha & Hb & Hmonth).
  assert (tl = "") as ->.
  { destruct Htl as [->| ->]; [reflexivity|]. exfalso.
    pose proof (strip_rstrip entry) as Hr. rewrite Hs in Hr.
    pose proof (d_code _ Ha). pose proof (d_code _ Hb).
    pose proof (d_code _ Hc). pose proof (d_code _ Hd).
    pose proof (d_code _ He). pose proof (d_code _ Hf).
    rewrite !rstrip_cons_nonspace in Hr
      by (first [apply code_not_space; lia | reflexivity]).
    discriminate Hr. }
  rewrite Hs, (parse_date_digits a b c d e f) by assumption.
  eexists _, _. split; [reflexivity|]. split; [exact Hmonth|].
  apply d_code in Hc, Hd, He, Hf. split; [lia|reflexivity].
Qed.

(** X15.  A date field that passes the pattern, once stripped, has seven
    characters and splits on the slash into a month from 1 to 12 and a
    year from 0 to 9999: the unpacking of the dates, which is outside the
    try block, does not raise. *)
Theorem X15_validated_dates_parse (entry : string) :
  match_date (Py.strip entry) = true ->
  exists m y,
    parse_date (Py.strip entry) = Some (m, y)
    /\ 1 <= m <= 12 /\ 0 <= y <= 9999
    /\ String.length (Py.strip entry) = 7%nat.
Proof. apply validated_date_parses. Qed.

Lemma insert_games_subseteq games : forall rows : gmap string Row,
  rows ⊆ insert_games rows games.
Proof.
  unfold insert_games. induction games as [|g games IH]; intros rows; [done|].
  cbn [fold_left]. destruct (rows !! Parser.url g) eqn:Hg; [apply IH|].
  etrans; [|apply IH]. by apply insert_subseteq.
Qed.

Lemma month_loop_cond em ey st :
  1 <= current_month st <= 12 -> 1 <= em <= 12 ->
  (current_year st <? ey)
  || ((current_year st =? ey) && (current_month st <=? em))
  = (0 <? remaining em ey st).
Proof.
  intros Hc He. unfold remaining.
  destruct (Z.ltb_spec (current_year st) ey),
           (Z.eqb_spec (current_year st) ey),
           (Z.leb_spec (current_month st) em),
           (Z.ltb_spec 0 ((ey - current_year st) * 12
                          + (em - current_month st + 1)));
    cbn; try reflexivity; lia.
Qed.

Lemma month_loop_done fetch em ey fuel st :
  1 <= current_month st <= 12 -> 1 <= em <= 12 ->
  remaining em ey st <= 0 ->
  month_loop fetch em ey fuel st = Some (Finished st).
Proof.
  intros Hc He Hr. destruct fuel; cbn [month_loop];
    rewrite month_loop_cond by assumption;
    by destruct (Z.ltb_spec 0 (remaining em ey st)); [lia|].
Qed.

Lemma month_loop_raises fetch em ey fuel st :
  1 <= current_month st <= 12 -> 1 <= em <= 12 ->
  0 < remaining em ey st ->
  answers fetch (current_month st, current_year st) = false ->
  month_loop fetch em ey (S fuel) st = Some (Raised (announce st)).
Proof.
  intros Hc He Hr Ha. cbn [month_loop].
  rewrite month_loop_cond by assumption.
  destruct (Z.ltb_spec 0 (remaining em ey st)); [|lia].
  unfold answers in Ha. cbn in Ha |- *.
  by destruct (fetch (current_year st) (current_month st)).
Qed.

Lemma month_loop_turn fetch em ey fuel st :
  1 <= current_month st <= 12 -> 1 <= em <= 12 ->
  0 < remaining em ey st ->
  answers fetch (current_month st, current_year st) = true ->
  exists g rest,
    month_loop fetch em ey (S fuel) st
    = month_loop fetch em ey fuel (turn st (g :: rest)).
Proof.
  intros Hc He Hr Ha. cbn [month_loop].
  rewrite month_loop_cond by assumption.
  destruct (Z.ltb_spec 0 (remaining em ey st)); [|lia].
  unfold answers in Ha. cbn in Ha |- *.
  destruct (fetch (current_year st) (current_month st)) as [raw| |];
    try discriminate Ha.
  destruct (parse_pgn_games_cons raw) as (g & rest & ->).
  exists g, rest. unfold turn. cbn.
  by destruct (12 <? current_month st + 1).
Qed.

Lemma month_after_0 m y : 1 <= m <= 12 -> month_after m y 0 = (m, y).
Proof.
  intros Hm. unfold month_after. rewrite Z.add_0_r.
  rewrite Z.mod_small, Z.div_small by lia. f_equal; lia.
Qed.

Lemma month_after_range m y i : 1 <= (month_after m y i).1 <= 12.
Proof.
  unfold month_after; cbn.
  pose proof (Z.mod_pos_bound (m - 1 + Z.of_nat i) 12). lia.
Qed.

Lemma month_after_S st games i :
  1 <= current_month st <= 12 ->
  month_after (current_month (turn st games)) (current_year (turn st games)) i
  = month_after (current_month st) (current_year st) (S i).
Proof.
  intros Hc. unfold month_after, turn; cbn [current_month current_year].
  destruct (Z.ltb_spec 12 (current_month st + 1)).
  - assert (current_month st = 12) as -> by lia.
    replace (12 - 1 + Z.of_nat (S i)) with (Z.of_nat i + 1 * 12) by lia.
    rewrite Z.mod_add, Z.div_add by lia.
    replace (1 - 1 + Z.of_nat i) with (Z.of_nat i) by lia. f_equal; lia.
  - do 3 f_equal; lia.
Qed.

Lemma months_from_S st games k :
  1 <= current_month st <= 12 ->
  months_from (current_month st) (current_year st) (S k)
  = (current_month st, current_year st)
    :: months_from (current_month (turn st games))
         (current_year (turn st games)) k.
Proof.
  intros Hc. unfold months_from. cbn [seq map].
  rewrite month_after_0 by assumption. f_equal.
  rewrite <- seq_shift, map_map. apply map_ext. intros i.
  symmetry. by apply month_after_S.
Qed.

Lemma turn_range st games :
  1 <= current_month st <= 12 -> 1 <= current_month (turn st games) <= 12.
Proof.
  intros Hc. unfold turn; cbn.
  destruct (Z.ltb_spec 12 (current_month st + 1)); lia.
Qed.

Lemma turn_remaining em ey st games :
  1 <= current_month st <= 12 ->
  remaining em ey (turn st games) = remaining em ey st - 1.
Proof.
  intros Hc. unfold remaining, turn; cbn.
  destruct (Z.ltb_spec 12 (current_month st + 1)); lia.
Qed.

(** Every month answers: the loop visits each of the months left, once and
    in order, and is left by its condition. *)
Lemma month_loop_finishes fetch em ey k : forall fuel st,
  1 <= current_month st <= 12 -> 1 <= em <= 12 ->
  remaining em ey st = Z.of_nat k -> (k <= fuel)%nat ->
  Forall (fun p => answers fetch p = true)
    (months_from (current_month st) (current_year st) k) ->
  exists st',
    month_loop fetch em ey fuel st = Some (Finished st')
    /\ months_processed st' = (months_processed st + k)%nat
    /\ announced st'
       = announced st ++ months_from (current_month st) (current_year st) k
    /\ (total_games st + k <= total_games st')%nat
    /\ rows st ⊆ rows st'.
Proof.
  induction k as [|k IH]; intros fuel st Hc He Hr Hf Hall.
  - exists st. rewrite month_loop_done by (assumption || lia).
    rewrite !Nat.add_0_r. cbn. by rewrite app_nil_r.
  - destruct fuel as [|fuel]; [lia|].
    pose proof Hall as Hall0.
    rewrite (months_from_S st []) in Hall0 by assumption.
    apply Forall_cons in Hall0 as [Ha _].
    destruct (month_loop_turn fetch em ey fuel st) as (g & rest & ->);
      [assumption|assumption|lia|assumption|].
    rewrite (months_from_S st (g :: rest)) in Hall |- * by assumption.
    apply Forall_cons in Hall as [_ Hall].
    destruct (IH fuel (turn st (g :: rest))) as (st' & -> & Hm & Han & Ht & Hrows).
    + by apply turn_range.
    + assumption.
    + rewrite turn_remaining by assumption. lia.
    + lia.
    + assumption.
    + exists st'. split; [reflexivity|]. split; [rewrite Hm; cbn; lia|].
      split; [rewrite Han; cbn [turn announced]; by rewrite <- app_assoc|].
      split; [cbn in Ht; lia|].
      etrans; [|exact Hrows]. apply insert_games_subseteq.
Qed.

(** A month does not answer: the loop is left there, after the months
    before it. *)
Lemma month_loop_stops fetch em ey i : forall k fuel st,
  1 <= current_month st <= 12 -> 1 <= em <= 12 ->
  remaining em ey st = Z.of_nat k -> (k <= fuel)%nat -> (i < k)%nat ->
  Forall (fun p => answers fetch p = true)
    (months_from (current_month st) (current_year st) i) ->
  answers fetch (month_after (current_month st) (current_year st) i) = false ->
  exists st',
    month_loop fetch em ey fuel st = Some (Raised st')
    /\ months_processed st' = (months_processed st + i)%nat
    /\ announced st'
       = announced st
         ++ months_from (current_month st) (current_year st) (S i).
Proof.
  induction i as [|i IH]; intros k fuel st Hc He Hr Hf Hi Hall Hbad.
  - destruct fuel as [|fuel]; [lia|].
    rewrite month_after_0 in Hbad by assumption.
    rewrite month_loop_raises by (assumption || lia).
    exists (announce st). split; [reflexivity|]. split; [cbn; lia|].
    unfold months_from. cbn [seq map announce announced].
    by rewrite month_after_0.
  - destruct fuel as [|fuel]; [lia|]. destruct k as [|k]; [lia|].
    pose proof Hall as Hall0.
    rewrite (months_from_S st []) in Hall0 by assumption.
    apply Forall_cons in Hall0 as [Ha _].
    destruct (month_loop_turn fetch em ey fuel st) as (g & rest & ->);
      [assumption|assumption|lia|assumption|].
    rewrite (months_from_S st (g :: rest)) in Hall by assumption.
    apply Forall_cons in Hall as [_ Hall].
    rewrite <- (month_after_S st (g :: rest)) in Hbad by assumption.
    destruct (IH k fuel (turn st (g :: rest))) as (st' & -> & Hm & Han).
    + by apply turn_range.
    + assumption.
    + rewrite turn_remaining by assumption. lia.
    + lia.
    + lia.
    + assumption.
    + assumption.
    + exists st'. split; [reflexivity|]. split; [rewrite Hm; cbn; lia|].
      rewrite Han. rewrite (months_from_S st (g :: rest) (S i)) by assumption.
      cbn [turn announced]. by rewrite <- app_assoc.
Qed.

(** The fuel of the months of the range is enough. *)
Lemma month_loop_returns fetch em ey k : forall fuel st,
  1 <= current_month st <= 12 -> 1 <= em <= 12 ->
  remaining em ey st = Z.of_nat k -> (k <= fuel)%nat ->
  is_Some (month_loop fetch em ey fuel st).
Proof.
  induction k as [|k IH]; intros fuel st Hc He Hr Hf.
  - rewrite month_loop_done by (assumption || lia). by eexists.
  - destruct fuel as [|fuel]; [lia|].
    destruct (answers fetch (current_month st, current_year st)) eqn:Ha.
    + destruct (month_loop_turn fetch em ey fuel st) as (g & rest & ->);
        [assumption|assumption|lia|assumption|].
      apply IH; [by apply turn_range|assumption| |lia].
      rewrite turn_remaining by assumption. lia.
    + rewrite month_loop_raises by (assumption || lia). by eexists.
Qed.

Lemma create_new_database_runs fetch refreshed u s e rows c r sm sy em ey :
  Py.strip u = String c r ->
  match_date (Py.strip s) = true -> match_date (Py.strip e) = true ->
  parse_date (Py.strip s) = Some (sm, sy) ->
  parse_date (Py.strip e) = Some (em, ey) ->
  (ey <? sy) || ((ey =? sy) && (em <? sm)) = false ->
  create_new_database fetch refreshed u s e rows
  = (loop ← month_loop fetch em ey (Z.to_nat (total_months sm sy em ey))
             (initial sm sy rows);
     match loop with
     | Finished st =>
         Some {| final_status :=
                   if refreshed then Success (Py.strip u) (total_games st)
                   else Error;
                 progress_maximum := Some (total_months sm sy em ey);
                 loop_variables := Some st;
                 file_rows := Settings.rows st |}
     | Raised st =>
         Some {| final_status := Error;
                 progress_maximum := Some (total_months sm sy em ey);
                 loop_variables := Some st;
                 file_rows := rows |}
     end)
  /\ 1 <= sm <= 12 /\ 1 <= em <= 12
  /\ remaining em ey (initial sm sy rows)
     = Z.of_nat (Z.to_nat (total_months sm sy em ey))
  /\ 1 <= total_months sm sy em ey.
Proof.
  intros Hu Hs He Hps Hpe Hrange.
  destruct (validated_date_parses s Hs) as (m1 & y1 & Hq1 & Hm1 & _).
  destruct (validated_date_parses e He) as (m2 & y2 & Hq2 & Hm2 & _).
  rewrite Hps in Hq1. rewrite Hpe in Hq2.
  injection Hq1 as <- <-. injection Hq2 as <- <-.
  assert (Hn : 1 <= total_months sm sy em ey).
  { unfold total_months.
    destruct (Z.ltb_spec ey sy); [discriminate Hrange|].
    destruct (Z.eqb_spec ey sy), (Z.ltb_spec em sm);
      try discriminate Hrange; lia. }
  split; [|split; [assumption|split; [assumption|split; [|assumption]]]].
  - unfold create_new_database. rewrite Hu, Hs, He, Hps, Hpe. cbn.
    rewrite Hrange. reflexivity.
  - unfold remaining, initial, total_months in *; cbn. lia.
Qed.

(** X16.  [create_new_database] returns on every input: the loop over the
    months ends and nothing raises outside the try block.  When the
    refresh of the list goes through and the status is not the message
    of success, the rows of the file are as they were. *)
Theorem X16_create_new_database_returns fetch refreshed u s e rows :
  exists out,
    create_new_database fetch refreshed u s e rows = Some out
    /\ (refreshed = true
        -> (forall k, final_status out <> Success (Py.strip u) k)
        -> file_rows out = rows).
Proof.
  unfold create_new_database.
  destruct (Py.strip u) as [|c r] eqn:Hu;
    [eexists; split; [reflexivity|by intros]|].
  destruct (match_date (Py.strip s)) eqn:Hs;
    [|eexists; split; [reflexivity|by intros]].
  destruct (match_date (Py.strip e)) eqn:He;
    [|eexists; split; [reflexivity|by intros]].
  destruct (validated_date_parses s Hs) as (sm & sy & Hps & Hsm & _).
  destruct (validated_date_parses e He) as (em & ey & Hpe & Hem & _).
  destruct ((ey <? sy) || ((ey =? sy) && (em <? sm))) eqn:Hrange.
  { rewrite Hps, Hpe. cbn. rewrite Hrange.
    eexists; split; [reflexivity|by intros]. }
  destruct (create_new_database_runs fetch refreshed u s e rows c r
              sm sy em ey) as (_ & _ & _ & Hrem & Hn); try assumption.
  destruct (month_loop_returns fetch em ey
              (Z.to_nat (total_months sm sy em ey))
              (Z.to_nat (total_months sm sy em ey)) (initial sm sy rows))
    as [loop Hloop]; [assumption|assumption|assumption|lia|].
  rewrite Hps, Hpe. cbn. rewrite Hrange. fold (total_months sm sy em ey).
  fold (initial sm sy rows). rewrite Hloop. cbn.
  destruct loop as [st|st]; eexists; (split; [reflexivity|]); cbn.
  - intros -> Hk. by destruct (Hk (total_games st)).
  - by intros.
Qed.

Lemma forallb_Forall {A} (f : A -> bool) l :
  forallb f l = true -> Forall (fun x => f x = true) l.
Proof. rewrite forallb_forall, Forall_forall. intros H x Hx. apply H. by apply list_elem_of_In. Qed.

(** X17.  When every month of the range answers, the loop visits each month
    once, in order, from the start month to the end month; the months
    processed equal the maximum given to the progress bar; every month
    counts at least one game, an empty month too, the parser never
    returning an empty list; and the rows that were in the file stay. *)
Theorem X17_import_visits_every_month fetch refreshed u s e rows c r sm sy em ey :
  Py.strip u = String c r ->
  match_date (Py.strip s) = true -> match_date (Py.strip e) = true ->
  parse_date (Py.strip s) = Some (sm, sy) ->
  parse_date (Py.strip e) = Some (em, ey) ->
  (ey <? sy) || ((ey =? sy) && (em <? sm)) = false ->
  forallb (answers fetch)
    (months_from sm sy (Z.to_nat (total_months sm sy em ey))) = true ->
  exists st,
    create_new_database fetch refreshed u s e rows
    = Some {| final_status :=
                if refreshed then Success (Py.strip u) (total_games st)
                else Error;
              progress_maximum := Some (total_months sm sy em ey);
              loop_variables := Some st;
              file_rows := Settings.rows st |}
    /\ Z.of_nat (months_processed st) = total_months sm sy em ey
    /\ announced st
       = months_from sm sy (Z.to_nat (total_months sm sy em ey))
    /\ (months_processed st <= total_games st)%nat
    /\ rows ⊆ Settings.rows st.
Proof.
  intros Hu Hs He Hps Hpe Hrange Hall.
  destruct (create_new_database_runs fetch refreshed u s e rows c r
              sm sy em ey) as (-> & Hsm & Hem & Hrem & Hn); try assumption.
  destruct (month_loop_finishes fetch em ey
              (Z.to_nat (total_months sm sy em ey))
              (Z.to_nat (total_months sm sy em ey)) (initial sm sy rows))
    as (st & -> & Hm & Han & Ht & Hrows);
    [assumption|assumption|assumption|lia|by apply forallb_Forall|].
  exists st. cbn in *. split; [reflexivity|].
  split; [lia|]. split; [assumption|]. split; [lia|assumption].
Qed.

(** X18.  When a month does not answer, the function ends with the error
    status at that month, the months before it having been processed;
    the rows of those months are not committed, the file keeps the rows
    it had. *)
Theorem X18_failed_month_discards_import
  fetch refreshed u s e rows c r sm sy em ey (i : nat) :
  Py.strip u = String c r ->
  match_date (Py.strip s) = true -> match_date (Py.strip e) = true ->
  parse_date (Py.strip s) = Some (sm, sy) ->
  parse_date (Py.strip e) = Some (em, ey) ->
  (ey <? sy) || ((ey =? sy) && (em <? sm)) = false ->
  Z.of_nat i < total_months sm sy em ey ->
  forallb (answers fetch) (months_from sm sy i) = true ->
  answers fetch (month_after sm sy i) = false ->
  exists st,
    create_new_database fetch refreshed u s e rows
    = Some {| final_status := Error;
              progress_maximum := Some (total_months sm sy em ey);
              loop_variables := Some st;
              file_rows := rows |}
    /\ months_processed st = i
    /\ announced st = months_from sm sy (S i).
Proof.
  intros Hu Hs He Hps Hpe Hrange Hi Hall Hbad.
  destruct (create_new_database_runs fetch refreshed u s e rows c r
              sm sy em ey) as (-> & Hsm & Hem & Hrem & Hn); try assumption.
  destruct (month_loop_stops fetch em ey i
              (Z.to_nat (total_months sm sy em ey))
              (Z.to_nat (total_months sm sy em ey)) (initial sm sy rows))
    as (st & -> & Hm & Han);
    [assumption|assumption|assumption|lia|lia|by apply forallb_Forall
    |assumption|].
  exists st. cbn in *. by repeat split.
Qed.

Lemma append_inj_l (p a b : string) : p +:+ a = p +:+ b -> a = b.
Proof.
  induction p as [|c p IH]; rewrite ?append_String, ?append_empty; [done|].
  intros [= Hp]. by apply IH.
Qed.

Lemma append_inj_r (s : string) : forall a b : string,
  a +:+ s = b +:+ s -> a = b.
Proof.
  induction a as [|c a IH]; intros [|d b] Heq;
    rewrite ?append_String, ?append_empty in Heq.
  - reflexivity.
  - apply (f_equal String.length) in Heq. cbn in Heq.
    rewrite length_append in Heq. lia.
  - apply (f_equal String.length) in Heq. cbn in Heq.
    rewrite length_append in Heq. lia.
  - injection Heq as -> Heq. f_equal. by apply IH.
Qed.

(** X19.  The file the start-up script fills is the file the viewer opens
    exactly when the user name is not empty and has no upper-case letter
    and no space. *)
Theorem X19_init_and_viewer_files_agree (username : string) :
  init_db_file username = viewer_db_file username
  <-> username <> "" /\ underscore_spaces (Py.lower username) = username.
Proof.
  unfold init_db_file, viewer_db_file. destruct username as [|c r].
  - split; [intros Heq; discriminate Heq|intros [Hne _]; by destruct Hne].
  - split.
    + intros Heq. split; [done|].
      apply append_inj_l, append_inj_r in Heq. by symmetry.
    + intros [_ Heq]. by rewrite Heq.
Qed.

Lemma no_straddle_db c b :
  Py.contains "_games.db" (String c b) = false ->
  Py.startswith "_games.db" (String c b +:+ "_games.db") = false.
Proof.
  intros Hc. apply contains_head in Hc.
  destruct (Py.startswith _ (_ +:+ _)) eqn:Hs; [|reflexivity].
  exfalso.
  destruct b as [|c2 [|c3 [|c4 [|c5 [|c6 [|c7 [|c8 [|c9 b]]]]]]]];
    rewrite ?append_String, ?append_empty in Hs;
    cbn [Py.startswith] in Hs; eqb_cases Hs;
    try discriminate; cbn in Hc; discriminate Hc.
Qed.

Lemma split_db_file b :
  Py.contains "_games.db" b = false ->
  Py.split_from "_games.db" 0 (b +:+ "_games.db") = (b, [""]).
Proof.
  induction b as [|c b IH]; intros Hc.
  - reflexivity.
  - pose proof (no_straddle_db c b Hc) as Hs.
    rewrite append_String in *.
    cbn [Py.split_from]. rewrite Hs.
    rewrite (IH (contains_tail _ _ _ Hc)). reflexivity.
Qed.

Lemma append_nil_r (a : string) : a +:+ "" = a.
Proof.
  induction a as [|c a IH]; rewrite ?append_String, ?append_empty; [done|].
  by rewrite IH.
Qed.

(** X20.  The user name read off the file name the settings dialog gives a
    database is the user name in lower case, when that holds no
    occurrence of the file suffix. *)
Theorem X20_user_name_read_off_file (username : string) :
  Py.contains "_games.db" (Py.lower username) = false ->
  set_selected_as_user (settings_db_file username) = Py.lower username.
Proof.
  intros Hc. unfold set_selected_as_user, settings_db_file, replace, Py.split.
  rewrite split_db_file by assumption. cbn [Py.join].
  by rewrite append_empty, append_nil_r.
Qed.

End SettingsFacts.

Lemma X15_validated_dates_parse_witness :
  exists m y,
    Settings.parse_date (Py.strip " 02/2024 ") = Some (m, y)
    /\ 1 <= m <= 12 /\ 0 <= y <= 9999
    /\ String.length (Py.strip " 02/2024 ") = 7%nat.
Proof.
  apply (X15_validated_dates_parse " 02/2024 "). vm_compute. reflexivity.
Defined.

Lemma X17_import_visits_every_month_witness :
  exists st,
    Settings.create_new_database Settings.empty_months true
      " Bob " "11/2023" "02/2024" ∅
    = Some {| Settings.final_status :=
                Settings.Success (Py.strip " Bob ") (Settings.total_games st);
              Settings.progress_maximum :=
                Some (Settings.total_months 11 2023 2 2024);
              Settings.loop_variables := Some st;
              Settings.file_rows := Settings.rows st |}
    /\ Z.of_nat (Settings.months_processed st)
       = Settings.total_months 11 2023 2 2024
    /\ Settings.announced st
       = Settings.months_from 11 2023
           (Z.to_nat (Settings.total_months 11 2023 2 2024))
    /\ (Settings.months_processed st <= Settings.total_games st)%nat
    /\ ∅ ⊆ Settings.rows st.
Proof.
  apply (X17_import_visits_every_month Settings.empty_months true
           " Bob " "11/2023" "02/2024" ∅ "B" "ob" 11 2023 2 2024);
    vm_compute; reflexivity.
Defined.

Lemma X18_failed_month_discards_import_witness :
  exists st,
    Settings.create_new_database Settings.no_january true
      " Bob " "11/2023" "02/2024" ∅
    = Some {| Settings.final_status := Settings.Error;
              Settings.progress_maximum :=
                Some (Settings.total_months 11 2023 2 2024);
              Settings.loop_variables := Some st;
              Settings.file_rows := ∅ |}
    /\ Settings.months_processed st = 2%nat
    /\ Settings.announced st = Settings.months_from 11 2023 3.
Proof.
  apply (X18_failed_month_discards_import Settings.no_january true
           " Bob " "11/2023" "02/2024" ∅ "B" "ob" 11 2023 2 2024 2);
    vm_compute; reflexivity.
Defined.

Lemma X19_init_and_viewer_files_agree_witness :
  Settings.init_db_file "bob" = Settings.viewer_db_file "bob".
Proof.
  apply (proj2 (X19_init_and_viewer_files_agree "bob")).
  split; [discriminate|reflexivity].
Defined.

Lemma X20_user_name_read_off_file_witness :
  Settings.set_selected_as_user (Settings.settings_db_file "Bob")
  = Py.lower "Bob".
Proof.
  apply (X20_user_name_read_off_file "Bob"). vm_compute. reflexivity.
Defined.

(** ** The evaluation pipeline, its calls and its frame *)

Section PipelineFacts.
Context `{Chess.Engine}.
Import Chess Evaluation.

Lemma scores_loop_world ms : forall color depth total i board scores mates w r w',
  scores_loop color depth total i board ms scores mates w = (Ok r, w') ->
  engine_calls w' = (engine_calls w + length ms)%nat
  /\ progress w' = progress w ++ ticks total i (length ms).
Proof.
  induction ms as [|m ms IH]; intros color depth total i board scores mates w r w' Hrun.
  - cbn in Hrun. injection Hrun as _ <-. unfold ticks. cbn.
    by rewrite Nat.add_0_r, app_nil_r.
  - cbn [scores_loop] in Hrun. unfold bind at 1 in Hrun.
    unfold engine_analyse at 1 in Hrun.
    destruct (analyse (engine_calls w) (push board m) depth) as [info|e];
      [|discriminate Hrun].
    destruct (extract (pov info color)) as [mate sc].
    unfold bind at 1 in Hrun. unfold notify_progress at 1 in Hrun.
    apply IH in Hrun as [Hc Hp]. cbn in Hc, Hp.
    split; [cbn; lia|]. rewrite Hp. unfold ticks. cbn.
    by rewrite <- app_assoc.
Qed.

Lemma wdl_loop_world ms : forall color depth board probs w r w',
  wdl_loop color depth board ms probs w = (Ok r, w') ->
  engine_calls w' = (engine_calls w + length ms)%nat
  /\ progress w' = progress w.
Proof.
  induction ms as [|m ms IH]; intros color depth board probs w r w' Hrun.
  - cbn in Hrun. injection Hrun as _ <-. by rewrite Nat.add_0_r.
  - cbn [wdl_loop] in Hrun. unfold bind at 1 in Hrun.
    unfold engine_analyse at 1 in Hrun.
    destruct (analyse (engine_calls w) (push board m) depth) as [info|e];
      [|discriminate Hrun].
    apply IH in Hrun as [Hc Hp]. cbn in Hc, Hp. split; [cbn; lia|done].
Qed.

Variable current_user : string.

Lemma calculate_stockfish_scores_world game depth w r w' :
  calculate_stockfish_scores current_user game depth w = (Ok r, w') ->
  engine_calls w' = (engine_calls w + S (plies game))%nat
  /\ progress w' = progress w ++ ticks (S (plies game)) 1 (S (plies game)).
Proof.
  unfold calculate_stockfish_scores. intros Hrun.
  unfold bind at 1 in Hrun. unfold engine_analyse at 1 in Hrun.
  destruct (analyse (engine_calls w) (game_board game) depth) as [info|e];
    [|discriminate Hrun].
  destruct (extract (pov info (pov_color current_user game))) as [mate sc].
  unfold bind at 1 in Hrun. unfold notify_progress at 1 in Hrun.
  apply scores_loop_world in Hrun as [Hc Hp]. cbn in Hc, Hp.
  unfold plies. split; [lia|]. rewrite Hp. unfold ticks. cbn.
  by rewrite <- app_assoc.
Qed.

Lemma calculate_wdl_probabilities_world game depth w r w' :
  calculate_wdl_probabilities current_user game depth w = (Ok r, w') ->
  engine_calls w' = (engine_calls w + S (plies game))%nat
  /\ progress w' = progress w.
Proof.
  unfold calculate_wdl_probabilities. intros Hrun.
  unfold bind at 1 in Hrun. unfold engine_analyse at 1 in Hrun.
  destruct (analyse (engine_calls w) (game_board game) depth) as [info|e];
    [|discriminate Hrun].
  apply wdl_loop_world in Hrun as [Hc Hp]. cbn in Hc, Hp.
  unfold plies. split; [lia|done].
Qed.

(** X21.  A run that returns has made two engine calls for each position,
    2 (N + 1) for a game of N moves, and has scheduled the progress
    calls 1 of N + 1 up to N + 1 of N + 1, in order. *)
Theorem X21_run_calls_and_progress url pgn depth w w' game :
  read_game pgn = Some game ->
  run_evaluation_analysis current_user url pgn depth w = (Ok tt, w') ->
  engine_calls w' = (engine_calls w + 2 * S (plies game))%nat
  /\ progress w'
     = progress w
       ++ map (fun j => (j, S (plies game))) (seq 1 (S (plies game))).
Proof.
  intros Hgame Hrun. rewrite (run_unfold current_user url pgn depth w game Hgame) in Hrun.
  destruct (calculate_stockfish_scores current_user game depth w)
    as [[[scores mates]|e] w1] eqn:H1; [|discriminate Hrun].
  destruct (calculate_wdl_probabilities current_user game depth w1)
    as [[probs|e] w2] eqn:H2; [|discriminate Hrun].
  injection Hrun as <-. cbn [engine_calls progress].
  apply calculate_stockfish_scores_world in H1 as [Hc1 Hp1].
  apply calculate_wdl_probabilities_world in H2 as [Hc2 Hp2].
  split; [lia|]. by rewrite Hp2, Hp1.
Qed.

(** X22.  A run, whether it returns or raises, changes no row but the one of
    its link, changes there nothing but the evaluation, adds and removes
    no row, and changes nothing when no row has its link. *)
Theorem X22_run_touches_only_its_evaluation url pgn depth w :
  let w' := (run_evaluation_analysis current_user url pgn depth w).2 in
  dom (db w') = dom (db w)
  /\ (forall k, k <> url -> db w' !! k = db w !! k)
  /\ (forall r, db w !! url = Some r ->
        exists r', db w' !! url = Some r'
          /\ Store.pgn r' = Store.pgn r
          /\ Store.end_time r' = Store.end_time r
          /\ Store.white r' = Store.white r
          /\ Store.black r' = Store.black r
          /\ Store.time_control r' = Store.time_control r)
  /\ (db w !! url = None -> db w' = db w).
Proof.
  intros w'. subst w'.
  assert (Hcases :
    db (run_evaluation_analysis current_user url pgn depth w).2 = db w
    \/ exists data,
         db (run_evaluation_analysis current_user url pgn depth w).2
         = Store.update_evaluation (db w) url data).
  { pose proof (run_outcome current_user url pgn depth w) as Hout.
    destruct (read_game pgn) as [game|]; [|left; by rewrite Hout].
    cbn zeta in Hout.
    destruct (ask_all (engine_calls w) (boards game) depth) as [infos1|e].
    - destruct (ask_all (engine_calls w + S (plies game)) (boards game) depth)
        as [infos2|e].
      + destruct Hout as (w' & -> & Hdb & _). cbn [snd]. rewrite Hdb.
        destruct (db_writable w); [right; by eexists|by left].
      + destruct Hout as (w' & -> & Hdb & _). by left.
    - destruct Hout as (w' & -> & Hdb & _). by left. }
  destruct Hcases as [->|[data ->]].
  - split; [done|]. split; [done|]. split; [|done].
    intros r Hr. exists r. by repeat split.
  - destruct (update_evaluation_frame (db w) url url data)
      as (Hdom & _ & Hrow & Hnone).
    split; [exact Hdom|]. split.
    + intros k Hk.
      by destruct (update_evaluation_frame (db w) url k data) as (_ & -> & _).
    + split; [|exact Hnone]. intros r Hr.
      destruct (Hrow r Hr) as (r' & Hr' & _ & Hrest). by exists r'.
Qed.

End PipelineFacts.

Lemma X21_run_calls_and_progress_witness :
  Evaluation.engine_calls sample_world_evaluated
  = (Evaluation.engine_calls sample_world + 2 * S (plies sample_game))%nat
  /\ Evaluation.progress sample_world_evaluated
     = Evaluation.progress sample_world
       ++ map (fun j => (j, S (plies sample_game)))
            (seq 1 (S (plies sample_game))).
Proof.
  apply (@X21_run_calls_and_progress sample_lib steady_engine "alice"
           sample_url "1. e4 e5 *" 10 sample_world sample_world_evaluated
           sample_game).
  - reflexivity.
  - vm_compute. reflexivity.
Defined.

Lemma extract_neg (s : Chess.Score) :
  Evaluation.extract (Chess.neg s)
  = ((Evaluation.extract s).1, Qopp <$> (Evaluation.extract s).2).
Proof.
  destruct s as [c|n|]; [reflexivity| |reflexivity].
  unfold Chess.neg, Evaluation.extract.
  destruct (Z.eqb_spec n 0) as [->|Hn]; [reflexivity|].
  cbn. destruct (Z.ltb_spec 0 n), (Z.ltb_spec 0 (- n)); try lia;
    cbn; unfold Qopp, inject_Z; cbn; do 3 f_equal; lia.
Qed.

Lemma neg_involutive (s : Chess.Score) : Chess.neg (Chess.neg s) = s.
Proof.
  destruct s as [c|n|]; cbn; [by rewrite Z.opp_involutive| |reflexivity].
  destruct (Z.eqb_spec n 0) as [->|Hn]; [reflexivity|]. cbn.
  destruct (Z.eqb_spec (- n) 0); [lia|]. by rewrite Z.opp_involutive.
Qed.

(** X23.  The entry recorded from the point of view of Black is the entry from
    the point of view of White with the score negated and the same mate
    flag; the two scores are the negation of one another. *)
Theorem X23_black_view_mirrors_white (info : Chess.PovScore) :
  Evaluation.extract (Chess.pov info Chess.Black)
  = ((Evaluation.extract (Chess.pov info Chess.White)).1,
     Qopp <$> (Evaluation.extract (Chess.pov info Chess.White)).2)
  /\ Chess.pov info Chess.White = Chess.neg (Chess.pov info Chess.Black).
Proof.
  destruct info as [s t]. unfold Chess.pov. cbn [Chess.turn Chess.relative].
  destruct t; cbn [Chess.Color_eqb].
  - split; [apply extract_neg|by rewrite neg_involutive].
  - split; [|reflexivity].
    rewrite extract_neg. cbn [fst snd].
    destruct (Evaluation.extract s) as [m [q|]]; cbn; [|reflexivity].
    do 2 f_equal. destruct q as [a b]. unfold Qopp. cbn.
    by rewrite Z.opp_involutive.
Qed.

(** ** The rating window inside the range of the sliders *)

Section WindowFacts.
Import Rating.

Lemma select_window_inside (l : list RatingPoint) (s e : Z) :
  1 <= s -> s <= e -> e <= Z.of_nat (length l) ->
  (select_window {| elo_start_slider := s; elo_end_slider := e |} l).1
  = {| elo_start_slider := s; elo_end_slider := e |}
  /\ length (select_window {| elo_start_slider := s; elo_end_slider := e |} l).2
     = Z.to_nat (e - s + 1)
  /\ forall i : nat, Z.of_nat i <= e - s ->
       (select_window {| elo_start_slider := s; elo_end_slider := e |} l).2 !! i
       = l !! (Z.to_nat (s - 1) + i)%nat.
Proof.
  intros Hs Hse He. unfold select_window.
  cbn [elo_start_slider elo_end_slider].
  destruct (Z.ltb_spec e s) as [Hlt|_]; [lia|]. cbn [fst snd].
  rewrite Z.max_r, Z.min_r by lia.
  rewrite py_slice_inside by lia.
  split; [reflexivity|]. split.
  - rewrite length_take, length_drop. lia.
  - intros i Hi. rewrite lookup_take_lt by lia. by rewrite lookup_drop.
Qed.

(** X24.  With 1 <= start <= end <= M the sliders stay as they are, the window
    has end - start + 1 points, and its point number i, from 0, is point
    number start - 1 + i of the sequence. *)
Theorem X24_window_is_inclusive_range (l : list RatingPoint) (s e : Z) :
  1 <= s -> s <= e -> e <= Z.of_nat (length l) ->
  (select_window {| elo_start_slider := s; elo_end_slider := e |} l).1
  = {| elo_start_slider := s; elo_end_slider := e |}
  /\ length (select_window {| elo_start_slider := s; elo_end_slider := e |} l).2
     = Z.to_nat (e - s + 1)
  /\ forall i : nat, Z.of_nat i <= e - s ->
       (select_window {| elo_start_slider := s; elo_end_slider := e |} l).2 !! i
       = l !! (Z.to_nat (s - 1) + i)%nat.
Proof. apply select_window_inside. Qed.

(** X25.  For sliders inside 1..M, [on_elo_range_change] leaves the start
    slider, raises the end slider to it when it was below, and the plot
    that follows moves no slider and shows a window that is not empty. *)
Theorem X25_range_change_then_plot (sl : Sliders) (l : list RatingPoint) :
  1 <= elo_start_slider sl <= Z.of_nat (length l) ->
  1 <= elo_end_slider sl <= Z.of_nat (length l) ->
  let sl' := on_elo_range_change sl (length l) in
  sl' = {| elo_start_slider := elo_start_slider sl;
           elo_end_slider := Z.max (elo_start_slider sl) (elo_end_slider sl) |}
  /\ (select_window sl' l).1 = sl'
  /\ length (select_window sl' l).2
     = Z.to_nat (elo_end_slider sl' - elo_start_slider sl' + 1)
  /\ (select_window sl' l).2 <> [].
Proof.
  intros Hs He sl'.
  assert (Hsl : sl' = {| elo_start_slider := elo_start_slider sl;
                         elo_end_slider :=
                           Z.max (elo_start_slider sl) (elo_end_slider sl) |}).
  { subst sl'. unfold on_elo_range_change. destruct sl as [s e]. cbn in *.
    destruct (length l) as [|n] eqn:Hl; [cbn in Hs; lia|].
    destruct (Z.ltb_spec e s) as [Hlt|Hge]; cbn.
    - rewrite Z.ltb_irrefl. f_equal. lia.
    - destruct (Z.ltb_spec e s); [lia|]. f_equal. lia. }
  split; [exact Hsl|]. rewrite Hsl.
  destruct (select_window_inside l (elo_start_slider sl)
              (Z.max (elo_start_slider sl) (elo_end_slider sl)))
    as (H1 & H2 & _); [lia|lia|lia|].
  split; [exact H1|]. cbn [elo_start_slider elo_end_slider].
  split; [exact H2|]. intros Hnil. rewrite Hnil in H2. cbn in H2. lia.
Qed.

End WindowFacts.

Lemma X24_window_is_inclusive_range_witness :
  (Rating.select_window
     {| Rating.elo_start_slider := 2; Rating.elo_end_slider := 4 |}
     sample_points).1
  = {| Rating.elo_start_slider := 2; Rating.elo_end_slider := 4 |}
  /\ length (Rating.select_window
               {| Rating.elo_start_slider := 2; Rating.elo_end_slider := 4 |}
               sample_points).2
     = Z.to_nat (4 - 2 + 1)
  /\ forall i : nat, Z.of_nat i <= 4 - 2 ->
       (Rating.select_window
          {| Rating.elo_start_slider := 2; Rating.elo_end_slider := 4 |}
          sample_points).2 !! i
       = sample_points !! (Z.to_nat (2 - 1) + i)%nat.
Proof.
  apply (X24_window_is_inclusive_range sample_points 2 4); simpl; lia.
Defined.

Lemma X25_range_change_then_plot_witness :
  Rating.on_elo_range_change crossed_sliders (length sample_points)
  = {| Rating.elo_start_slider := 4; Rating.elo_end_slider := 4 |}
  /\ (Rating.select_window
        (Rating.on_elo_range_change crossed_sliders (length sample_points))
        sample_points).2 <> [].
Proof.
  destruct (X25_range_change_then_plot crossed_sliders sample_points)
    as (H1 & _ & _ & H2); [simpl; lia|simpl; lia|].
  split; [exact H1|exact H2].
Defined.
